(** * Apple TV remote-control service (services/pyatv/main.py)

    A shallow embedding of the session layer of the service: the
    discovery cache [discovered_devices], the connection pool
    [active_connections] with its get-or-create policy, the pairing
    sessions kept on [app.state], the remote-command dispatcher, the
    now-playing aggregator and the app endpoints.

    The pyatv library and the network behind it are not part of the
    repository.  They are taken as a parameter: a record [Pyatv] of
    operations over an abstract world [Env].  Every request handler is a
    computation in a state-and-exception monad over the process state;
    next to its result and final state it yields the list of library
    calls it made, in order.  Handlers run one at a time, from start to
    end: what another request could do while a handler waits on the
    network is not modelled.  Logging is not modelled either: a [logger]
    call changes nothing the handlers can observe. *)

From stdpp Require Import base option list strings pretty gmap fin_maps.

Open Scope string_scope.

(** ** Values exchanged with pyatv *)

(** [pyatv.interface.BaseConfig]: the fields the service reads.  The
    address is kept as the text [str(config.address)] yields. *)
Record BaseConfig := mkConfig {
  identifier : string;
  name : string;
  address : string;
}.

(** Python objects with identity are references into the world. *)
Definition AppleTV := nat.
Definition PairingHandler := nat.

(** [pyatv.const.Protocol], the two members the service selects. *)
Inductive Protocol := Companion | AirPlay.

(** [pyatv.const.FeatureName], the members the service queries. *)
Inductive FeatureName := App | LaunchApp | AppList.

(** A member of one of pyatv's enumerations, or any other value of which
    the service observes only [str(x)] and its truth value. *)
Record PyValue := mkValue {
  py_str : string;
  py_truthy : bool;
}.

(** [pyatv.interface.Playing]; [None] is Python's [None]. *)
Record Playing := mkPlaying {
  p_title : option string;
  p_artist : option string;
  p_album : option string;
  p_genre : option string;
  p_media_type : option PyValue;
  p_device_state : option PyValue;
  p_position : option Z;
  p_total_time : option Z;
  p_repeat : option PyValue;
  p_shuffle : option PyValue;
}.

(** [pyatv.interface.App]. *)
Record AppInfo := mkApp {
  a_name : option string;
  a_identifier : string;
}.

(** ** Exceptions *)

(** [HTTPException] is a subclass of [Exception]; everything else the
    library raises is an [Error] with its message. *)
Inductive Exception :=
| HTTPException (status_code : nat) (detail : string)
| Error (message : string).

Definition raises (A : Type) : Type := (Exception + A)%type.

Definition is_ok {A} (r : raises A) : bool :=
  match r with inr _ => true | inl _ => false end.

Definition value_of {A} (r : raises A) : option A :=
  match r with inr a => Some a | inl _ => None end.

(** ** The library as a parameter *)

(** Each operation reads and updates the world.  Attribute reads that
    yield an interface object of a connected device ([atv.remote_control],
    [atv.metadata], [atv.push_updater], [atv.features], [atv.apps]) create
    nothing and are not listed; [has_paired] and [credentials] are plain
    reads of the pairing object. *)
Record Pyatv := mkPyatv {
  Env : Type;
  scan : Env → raises (list BaseConfig) * Env;
  connect : BaseConfig → Env → raises AppleTV * Env;
  pair : BaseConfig → Protocol → Env → raises PairingHandler * Env;
  (* on a connected device *)
  device_info : AppleTV → Env → raises unit * Env;
  close : AppleTV → Env → raises unit * Env;
  remote_getattr : AppleTV → string → Env → bool;
  remote_call : AppleTV → string → Env → raises unit * Env;
  in_state : AppleTV → FeatureName → Env → raises bool * Env;
  metadata_playing : AppleTV → Env → raises Playing * Env;
  metadata_app : AppleTV → Env → raises (option AppInfo) * Env;
  app_list : AppleTV → Env → raises (list AppInfo) * Env;
  launch_app_op : AppleTV → string → Env → raises unit * Env;
  (* on a pairing object *)
  begin : PairingHandler → Env → raises unit * Env;
  pin : PairingHandler → string → Env → raises unit * Env;
  finish : PairingHandler → Env → raises unit * Env;
  has_paired : PairingHandler → Env → bool;
  credentials : PairingHandler → Env → option string;
  (* str(e) of an HTTPException, fixed by the web framework *)
  str_http : nat → string → string;
}.

(** ** Library calls made by a handler *)

Inductive Event :=
| EvScan (ok : bool)
| EvConnect (config : BaseConfig) (atv : option AppleTV)
| EvDeviceInfo (atv : AppleTV) (ok : bool)
| EvClose (atv : AppleTV) (ok : bool)
| EvRemote (atv : AppleTV) (method : string) (ok : bool)
| EvInState (atv : AppleTV) (feature : FeatureName) (ok : bool)
| EvPlaying (atv : AppleTV) (ok : bool)
| EvApp (atv : AppleTV) (ok : bool)
| EvAppList (atv : AppleTV) (ok : bool)
| EvLaunchApp (atv : AppleTV) (app_id : string) (ok : bool)
| EvPair (config : BaseConfig) (proto : Protocol) (pairing : option PairingHandler)
| EvBegin (pairing : PairingHandler) (ok : bool)
| EvPin (pairing : PairingHandler) (code : string) (ok : bool)
| EvFinish (pairing : PairingHandler) (ok : bool).

Definition is_scan (e : Event) : bool :=
  match e with EvScan _ => true | _ => false end.

Definition is_connect (e : Event) : bool :=
  match e with EvConnect _ _ => true | _ => false end.

Definition is_failed_probe (e : Event) : bool :=
  match e with EvDeviceInfo _ false => true | _ => false end.

(** The handle a successful [pyatv.connect] produced. *)
Definition created (e : Event) : option AppleTV :=
  match e with EvConnect _ atv => atv | _ => None end.

(** The handle a [close()] was called on. *)
Definition closed (e : Event) : option AppleTV :=
  match e with EvClose atv _ => Some atv | _ => None end.

(** ** Response bodies *)

Record DeviceInfo := mkDeviceInfo {
  di_id : string;
  di_name : string;
  di_address : string;
  di_model : option string;
  di_os_version : option string;
  di_is_connected : bool;
}.

Record NowPlayingInfo := mkNowPlaying {
  device_id_of : string;
  title : option string;
  artist : option string;
  album : option string;
  genre : option string;
  media_type : option string;
  device_state : string;
  position : option Z;
  total_time : option Z;
  repeat_mode : option string;
  shuffle : option string;
  app_name : option string;
  app_id_of : option string;
}.

(** [NowPlayingInfo(device_id=device_id)]: the declared defaults. *)
Definition NowPlayingInfo_new (device_id : string) : NowPlayingInfo :=
  mkNowPlaying device_id None None None None None "unknown" None None None None None None.

Record PairStartResponse := mkPairStart {
  ps_message : string;
  ps_protocol : string;
  ps_requires_pin : bool;
}.

Record PairFinishResponse := mkPairFinish {
  pf_message : string;
  pf_credentials : option string;
}.

Record CommandResponse := mkCommandResponse {
  cr_success : bool;
  cr_command : string;
}.

Record LaunchResponse := mkLaunchResponse {
  lr_success : bool;
  lr_app_id : string;
}.

Record AppsResponse := mkAppsResponse {
  ar_apps : list (string * option string);
  ar_message : option string;
}.

(** ** Strings *)

(** [str.lower()] on ASCII letters; other characters are kept. *)
Definition lower_ascii (c : Ascii.ascii) : Ascii.ascii :=
  let n := Ascii.nat_of_ascii c in
  if (65 <=? n)%nat && (n <=? 90)%nat then Ascii.ascii_of_nat (n + 32) else c.

Fixpoint lower (s : string) : string :=
  match s with
  | EmptyString => EmptyString
  | String c s' => String (lower_ascii c) (lower s')
  end.

(** [sep.join(parts)]. *)
Fixpoint join (sep : string) (parts : list string) : string :=
  match parts with
  | [] => ""
  | [x] => x
  | x :: rest => x +:+ sep +:+ join sep rest
  end.

(** ** The command catalog of [send_remote_command] *)

(** The dictionary literal [command_names], in source order. *)
Definition command_names : list (string * string) :=
  [ ("up", "up"); ("down", "down"); ("left", "left"); ("right", "right");
    ("select", "select"); ("menu", "menu"); ("home", "home");
    ("top_menu", "top_menu");
    ("play", "play"); ("pause", "pause"); ("play_pause", "play_pause");
    ("stop", "stop"); ("next", "next"); ("previous", "previous");
    ("skip_forward", "skip_forward"); ("skip_backward", "skip_backward");
    ("volume_up", "volume_up"); ("volume_down", "volume_down") ].

Fixpoint assoc (k : string) (d : list (string * string)) : option string :=
  match d with
  | [] => None
  | (k', v) :: d' => if decide (k = k') then Some v else assoc k d'
  end.

Definition unknown_command_detail (command : string) : string :=
  "Unknown command: " +:+ command +:+ ". Available: "
    +:+ join ", " (map fst command_names).

(** ** Process state and the handler monad *)

Section Service.

Context (P : Pyatv).

(** The module-level dictionaries, [app.state.pairing_sessions] (an
    attribute that does not exist until [start_pairing] first sets it),
    and the world outside the process. *)
Record State := mkState {
  discovered_devices : gmap string BaseConfig;
  active_connections : gmap string AppleTV;
  pairing_sessions : option (gmap string PairingHandler);
  world : Env P;
}.

Definition set_discovered_devices (f : gmap string BaseConfig → gmap string BaseConfig)
    (s : State) : State :=
  mkState (f (discovered_devices s)) (active_connections s) (pairing_sessions s) (world s).

Definition set_active_connections (f : gmap string AppleTV → gmap string AppleTV)
    (s : State) : State :=
  mkState (discovered_devices s) (f (active_connections s)) (pairing_sessions s) (world s).

Definition set_pairing_sessions (d : option (gmap string PairingHandler))
    (s : State) : State :=
  mkState (discovered_devices s) (active_connections s) d (world s).

Definition set_world (w : Env P) (s : State) : State :=
  mkState (discovered_devices s) (active_connections s) (pairing_sessions s) w.

(** What running a handler yields: the value returned or the exception
    raised, the state left behind (mutations made before an exception
    persist), and the library calls made. *)
Record Outcome (A : Type) := mkOutcome {
  result : raises A;
  final : State;
  calls : list Event;
}.
Global Arguments mkOutcome {A} _ _ _.
Global Arguments result {A} _.
Global Arguments final {A} _.
Global Arguments calls {A} _.

Definition M (A : Type) : Type := State → Outcome A.

Definition ret {A} (a : A) : M A := λ s, mkOutcome (inr a) s [].

Definition raise {A} (e : Exception) : M A := λ s, mkOutcome (inl e) s [].

Definition bind {A B} (m : M A) (k : A → M B) : M B := λ s,
  match m s with
  | mkOutcome (inl e) s1 c1 => mkOutcome (inl e) s1 c1
  | mkOutcome (inr a) s1 c1 =>
      match k a s1 with
      | mkOutcome r s2 c2 => mkOutcome r s2 (c1 ++ c2)
      end
  end.

(** [try: body / except Exception as e: handler(e)]. *)
Definition try_except {A} (body : M A) (handler : Exception → M A) : M A := λ s,
  match body s with
  | mkOutcome (inr a) s1 c1 => mkOutcome (inr a) s1 c1
  | mkOutcome (inl e) s1 c1 =>
      match handler e s1 with
      | mkOutcome r s2 c2 => mkOutcome r s2 (c1 ++ c2)
      end
  end.

Definition gets {A} (f : State → A) : M A := λ s, mkOutcome (inr (f s)) s [].

Definition modify (f : State → State) : M unit := λ s, mkOutcome (inr tt) (f s) [].

(** A call into the library: the world moves on and the call is noted. *)
Definition call {A} (op : Env P → raises A * Env P) (ev : raises A → Event) : M A := λ s,
  mkOutcome (op (world s)).1 (set_world (op (world s)).2 s) [ev (op (world s)).1].

Global Instance M_ret : MRet M := @ret.
Global Instance M_bind : MBind M := λ A B k m, bind m k.

(** [str(e)]. *)
Definition str (e : Exception) : string :=
  match e with
  | HTTPException status_code detail => str_http P status_code detail
  | Error message => message
  end.

(** ** Discovery *)

(** [scan_apple_tvs]; every caller uses the default timeout, which only
    the library reads.  A failure propagates unchanged. *)
Definition scan_apple_tvs : M (list BaseConfig) :=
  call (scan P) (λ r, EvScan (is_ok r)).

(** [for device in devices: discovered_devices[device.identifier] = device]. *)
Definition store_devices (devices : list BaseConfig)
    (d : gmap string BaseConfig) : gmap string BaseConfig :=
  foldl (λ acc device, <[identifier device := device]> acc) d devices.

(** ** The connection pool *)

(** [get_or_create_connection], lines 89-103: the pooled handle is
    returned when reading [atv.device_info] does not raise; otherwise it
    is closed (a failing close is ignored) and its entry deleted.
    [None] means the function goes on to the lines below. *)
Definition check_existing (device_id : string) : M (option AppleTV) :=
  conns ← gets active_connections;
  match conns !! device_id with
  | Some atv =>
      try_except
        (_ ← call (device_info P atv) (λ r, EvDeviceInfo atv (is_ok r));
         mret (Some atv))
        (λ _,
         _ ← try_except (call (close P atv) (λ r, EvClose atv (is_ok r)))
               (λ _, mret tt);
         _ ← modify (set_active_connections (delete device_id));
         mret None)
  | None => mret None
  end.

(** [get_or_create_connection], lines 119-126: connect, store the handle
    under the identifier and return it; any exception becomes a 500. *)
Definition connect_and_store (device_id : string) (config : BaseConfig) : M AppleTV :=
  try_except
    (atv ← call (connect P config) (λ r, EvConnect config (value_of r));
     _ ← modify (set_active_connections (<[device_id := atv]>));
     mret atv)
    (λ e, raise (HTTPException 500 ("Failed to connect: " +:+ str e))).

(** [get_or_create_connection], lines 105-126: find the configuration,
    scanning once when it is not cached, then connect. *)
Definition lookup_and_connect (device_id : string) : M AppleTV :=
  known ← gets discovered_devices;
  _ ← (if decide (is_Some (known !! device_id)) then mret tt
       else
         devices ← scan_apple_tvs;
         modify (set_discovered_devices (store_devices devices)));
  known ← gets discovered_devices;
  match known !! device_id with
  | None => raise (HTTPException 404 ("Apple TV " +:+ device_id +:+ " not found"))
  | Some config => connect_and_store device_id config
  end.

(** [get_or_create_connection]; the lock is held throughout, so the body
    runs as one step. *)
Definition get_or_create_connection (device_id : string) : M AppleTV :=
  existing ← check_existing device_id;
  match existing with
  | Some atv => mret atv
  | None => lookup_and_connect device_id
  end.

(** [close_all_connections]: one [close()] per entry, failures ignored,
    then the pool is cleared.  Python visits the entries in insertion
    order; here they are visited in the order [map_to_list] gives them,
    and nothing proved below depends on that order. *)
Fixpoint close_each (items : list (string * AppleTV)) : M unit :=
  match items with
  | [] => mret tt
  | (device_id, atv) :: rest =>
      _ ← try_except (call (close P atv) (λ r, EvClose atv (is_ok r)))
            (λ _, mret tt);
      close_each rest
  end.

Definition close_all_connections : M unit :=
  conns ← gets active_connections;
  _ ← close_each (map_to_list conns);
  modify (set_active_connections (λ _, ∅)).

(** ** Device discovery endpoints *)

Definition device_entry (conns : gmap string AppleTV) (device_id : string)
    (config : BaseConfig) : DeviceInfo :=
  mkDeviceInfo device_id (name config) (address config) None None
    (bool_decide (is_Some (conns !! device_id))).

(** [list_devices]: one entry per cached configuration, in the order
    [map_to_list] gives them (Python lists them in insertion order). *)
Definition list_devices : M (list DeviceInfo) :=
  known ← gets discovered_devices;
  conns ← gets active_connections;
  mret ((λ kv, device_entry conns kv.1 kv.2) <$> map_to_list known).

(** [rescan_devices]: the cache is cleared only once the scan has
    returned; each device found is stored and reported. *)
Definition rescan_devices : M (list DeviceInfo) :=
  try_except
    (devices ← scan_apple_tvs;
     _ ← modify (set_discovered_devices (λ _, ∅));
     _ ← modify (set_discovered_devices (store_devices devices));
     conns ← gets active_connections;
     mret ((λ device, device_entry conns (identifier device) device) <$> devices))
    (λ e, raise (HTTPException 500 ("Scan failed: " +:+ str e))).

(** ** Pairing *)

Record PairingRequest := mkPairingRequest { request_pin : string }.

(** [start_pairing]; the route declares [protocol = "companion"] as the
    default. *)
Definition start_pairing (device_id protocol : string) : M PairStartResponse :=
  known ← gets discovered_devices;
  match known !! device_id with
  | None => raise (HTTPException 404 "Device not found")
  | Some config =>
      let proto := if decide (lower protocol = "companion") then Companion else AirPlay in
      try_except
        (pairing ← call (pair P config proto) (λ r, EvPair config proto (value_of r));
         _ ← call (begin P pairing) (λ r, EvBegin pairing (is_ok r));
         _ ← modify (λ s, set_pairing_sessions
                 (Some (<[device_id := pairing]> (default ∅ (pairing_sessions s)))) s);
         mret (mkPairStart
                 ("Pairing started with " +:+ protocol
                    +:+ " protocol. Enter the PIN shown on your Apple TV.")
                 protocol true))
        (λ e, raise (HTTPException 500 ("Pairing failed: " +:+ str e)))
  end.

(** [finish_pairing].  The lookup of the session is outside the [try];
    everything after it, the [raise] of the [else] branch included, is
    inside, and the handler catches every [Exception].  The entry is
    deleted in the branch taken when [has_paired] holds, nowhere else. *)
Definition finish_pairing (device_id : string) (request : PairingRequest)
    : M PairFinishResponse :=
  sessions ← gets (λ s, default ∅ (pairing_sessions s));
  match sessions !! device_id with
  | None => raise (HTTPException 400 "No active pairing session")
  | Some pairing =>
      try_except
        (_ ← call (pin P pairing (request_pin request))
               (λ r, EvPin pairing (request_pin request) (is_ok r));
         _ ← call (finish P pairing) (λ r, EvFinish pairing (is_ok r));
         paired ← gets (λ s, has_paired P pairing (world s));
         if paired : bool then
           creds ← gets (λ s, credentials P pairing (world s));
           _ ← modify (λ s, set_pairing_sessions
                   (delete device_id <$> pairing_sessions s) s);
           mret (mkPairFinish "Pairing successful" creds)
         else raise (HTTPException 400 "Pairing not completed"))
        (λ e, raise (HTTPException 500 ("Pairing failed: " +:+ str e)))
  end.

(** ** Remote commands *)

(** [send_remote_command]: the connection is obtained on the first line,
    before the command name is looked up. *)
Definition send_remote_command (device_id command : string) : M CommandResponse :=
  atv ← get_or_create_connection device_id;
  match assoc command command_names with
  | None => raise (HTTPException 400 (unknown_command_detail command))
  | Some method_name =>
      present ← gets (λ s, remote_getattr P atv method_name (world s));
      if present : bool then
        try_except
          (_ ← call (remote_call P atv method_name)
                 (λ r, EvRemote atv method_name (is_ok r));
           mret (mkCommandResponse true command))
          (λ e, raise (HTTPException 500 ("Command failed: " +:+ str e)))
      else
        raise (HTTPException 400
                 ("Command '" +:+ command +:+ "' not supported by this Apple TV"))
  end.

(** ** Now playing *)

(** [str(x) if x else None]. *)
Definition str_if (x : option PyValue) : option string :=
  match x with
  | Some v => if py_truthy v then Some (py_str v) else None
  | None => None
  end.

(** The assignments made once [playing.playing()] has returned. *)
Definition with_playing (current : Playing) (r : NowPlayingInfo) : NowPlayingInfo :=
  mkNowPlaying (device_id_of r)
    (p_title current) (p_artist current) (p_album current) (p_genre current)
    (str_if (p_media_type current))
    (default "unknown" (str_if (p_device_state current)))
    (p_position current) (p_total_time current)
    (str_if (p_repeat current)) (str_if (p_shuffle current))
    (app_name r) (app_id_of r).

(** The assignments made when [playing.app()] returned an app. *)
Definition with_app (info : AppInfo) (r : NowPlayingInfo) : NowPlayingInfo :=
  mkNowPlaying (device_id_of r)
    (title r) (artist r) (album r) (genre r) (media_type r) (device_state r)
    (position r) (total_time r) (repeat_mode r) (shuffle r)
    (a_name info) (Some (a_identifier info)).

(** [get_now_playing]: the connection is obtained outside the [try];
    each of the two queries has a [try] of its own inside the outer one. *)
Definition get_now_playing (device_id : string) : M NowPlayingInfo :=
  atv ← get_or_create_connection device_id;
  try_except
    (let result := NowPlayingInfo_new device_id in
     result ← try_except
       (current ← call (metadata_playing P atv) (λ r, EvPlaying atv (is_ok r));
        mret (with_playing current result))
       (λ _, mret result);
     result ← try_except
       (available ← call (in_state P atv App) (λ r, EvInState atv App (is_ok r));
        if available : bool then
          app_info ← call (metadata_app P atv) (λ r, EvApp atv (is_ok r));
          match app_info with
          | Some info => mret (with_app info result)
          | None => mret result
          end
        else mret result)
       (λ _, mret result);
     mret result)
    (λ e, raise (HTTPException 500 ("Failed to get now playing: " +:+ str e))).

(** ** Apps *)

(** [launch_app]: an [HTTPException] raised inside the [try] is raised
    again as it is; any other exception becomes a 500. *)
Definition launch_app (device_id app_id : string) : M LaunchResponse :=
  atv ← get_or_create_connection device_id;
  try_except
    (available ← call (in_state P atv LaunchApp)
                   (λ r, EvInState atv LaunchApp (is_ok r));
     if negb available then raise (HTTPException 400 "App launching not supported")
     else
       _ ← call (launch_app_op P atv app_id) (λ r, EvLaunchApp atv app_id (is_ok r));
       mret (mkLaunchResponse true app_id))
    (λ e, match e with
          | HTTPException _ _ => raise e
          | Error _ => raise (HTTPException 500 ("Failed to launch app: " +:+ str e))
          end).

(** [list_apps]. *)
Definition list_apps (device_id : string) : M AppsResponse :=
  atv ← get_or_create_connection device_id;
  try_except
    (available ← call (in_state P atv AppList)
                   (λ r, EvInState atv AppList (is_ok r));
     if negb available then
       mret (mkAppsResponse [] (Some "App listing not supported on this device"))
     else
       apps ← call (app_list P atv) (λ r, EvAppList atv (is_ok r));
       mret (mkAppsResponse ((λ a, (a_identifier a, a_name a)) <$> apps) None))
    (λ e, raise (HTTPException 500 ("Failed to list apps: " +:+ str e))).

(** ** Remaining endpoints *)

Section DeviceDetails.

(** The model and the OS version held by the object a successful read of
    [atv.device_info] yields.  The record [Pyatv] keeps of that read only
    whether it raises; what the object holds is taken here. *)
Variable device_details : AppleTV → Env P → option string * option string.

(** [get_device]: the cached configuration, completed from the pooled
    handle when there is one; a failing read is passed over in silence
    and the pool is left alone. *)
Definition get_device (device_id : string) : M DeviceInfo :=
  known ← gets discovered_devices;
  match known !! device_id with
  | None => raise (HTTPException 404 "Device not found")
  | Some config =>
      conns ← gets active_connections;
      let device_info0 := device_entry conns device_id config in
      match conns !! device_id with
      | Some atv =>
          try_except
            (_ ← call (device_info P atv) (λ r, EvDeviceInfo atv (is_ok r));
             details ← gets (λ s, device_details atv (world s));
             mret (mkDeviceInfo (di_id device_info0) (di_name device_info0)
                     (di_address device_info0) details.1 details.2
                     (di_is_connected device_info0)))
            (λ _, mret device_info0)
      | None => mret device_info0
      end
  end.

End DeviceDetails.

Record ConnectResponse := mkConnectResponse {
  cn_success : bool;
  cn_device_id : string;
  cn_name : string;
}.

(** [connect_device]. *)
Definition connect_device (device_id : string) : M ConnectResponse :=
  atv ← get_or_create_connection device_id;
  known ← gets discovered_devices;
  mret (mkConnectResponse true device_id
          (match known !! device_id with
           | Some config => name config
           | None => "Unknown"
           end)).

Record HealthResponse := mkHealth {
  h_status : string;
  h_discovered_devices : nat;
  h_active_connections : nat;
}.

(** [health_check]. *)
Definition health_check : M HealthResponse :=
  known ← gets discovered_devices;
  conns ← gets active_connections;
  mret (mkHealth "healthy" (size known) (size conns)).

(** [lifespan] before the [yield]: the first scan; a failure is logged
    and the service starts all the same. *)
Definition lifespan_startup : M unit :=
  try_except
    (devices ← scan_apple_tvs;
     modify (set_discovered_devices (store_devices devices)))
    (λ _, mret tt).

(** [lifespan] after the [yield]. *)
Definition lifespan_shutdown : M unit := close_all_connections.

(** The process as the module is loaded: both dictionaries empty and no
    [pairing_sessions] attribute. *)
Definition loaded (w : Env P) : State := mkState ∅ ∅ None w.

(** ** Observations used to state the properties *)

(** [n] calls of [get_or_create_connection] for one identifier, one
    after the other, with the outcome of each. *)
Fixpoint acquire_repeatedly (n : nat) (device_id : string) (s : State)
    : list (Outcome AppleTV) :=
  match n with
  | 0 => []
  | S n' =>
      let o := get_or_create_connection device_id s in
      o :: acquire_repeatedly n' device_id (final o)
  end.

(** All library calls of a run, oldest first. *)
Definition all_calls {A} (run : list (Outcome A)) : list Event :=
  concat (calls <$> run).

(** A call that used no pooled handle: it made no library call but a scan
    and a connect, and a handle it returns is the one connect produced. *)
Definition connects_afresh (o : Outcome AppleTV) : Prop :=
  Forall (λ ev, is_scan ev || is_connect ev = true) (calls o) ∧
  ∀ atv, result o = inr atv → omap created (calls o) = [atv].

(** The session stored for an identifier, if any. *)
Definition session_of (device_id : string) (s : State) : option PairingHandler :=
  default ∅ (pairing_sessions s) !! device_id.

(** [disconnect_device]. *)
Definition disconnect_device (device_id : string) : M string :=
  conns ← gets active_connections;
  match conns !! device_id with
  | Some atv =>
      _ ← try_except (call (close P atv) (λ r, EvClose atv (is_ok r)))
            (λ _, mret tt);
      _ ← modify (set_active_connections (delete device_id));
      mret ("Disconnected from " +:+ device_id)
  | None => mret "Device was not connected"
  end.

End Service.

Arguments mkState {P} _ _ _ _.
Arguments discovered_devices {P} _.
Arguments active_connections {P} _.
Arguments pairing_sessions {P} _.
Arguments world {P} _.
Arguments mkOutcome {P A} _ _ _.
Arguments result {P A} _.
Arguments final {P A} _.
Arguments calls {P A} _.
Arguments all_calls {P A} _.

(** The fields of a snapshot that come from the playback query, and
    those that come from the app query. *)
Definition playback_part (r : NowPlayingInfo) :=
  (title r, artist r, album r, genre r, media_type r, device_state r,
   position r, total_time r, repeat_mode r, shuffle r).

Definition app_part (r : NowPlayingInfo) := (app_name r, app_id_of r).

(** ** A scripted library for concrete runs *)

Module Fake.

(** The world of the scripted library: what is on the network, which
    operations are set to fail, the next object reference to hand out,
    the handles whose session has died and the state of pairing. *)
Record World := mkWorld {
  network : list BaseConfig;
  scan_ok : bool;
  connect_ok : bool;
  close_ok : bool;
  next_ref : nat;
  dead : list nat;
  available : list FeatureName;
  now_playing : option Playing;
  running_app : option (option AppInfo);
  expected_pin : string;
  entered : list (nat * string);
  paired : list nat;
}.

Definition bump (w : World) : World :=
  mkWorld (network w) (scan_ok w) (connect_ok w) (close_ok w) (S (next_ref w))
    (dead w) (available w) (now_playing w) (running_app w) (expected_pin w)
    (entered w) (paired w).

Definition enter (p : nat) (code : string) (w : World) : World :=
  mkWorld (network w) (scan_ok w) (connect_ok w) (close_ok w) (next_ref w)
    (dead w) (available w) (now_playing w) (running_app w) (expected_pin w)
    ((p, code) :: entered w) (paired w).

Definition complete (p : nat) (w : World) : World :=
  mkWorld (network w) (scan_ok w) (connect_ok w) (close_ok w) (next_ref w)
    (dead w) (available w) (now_playing w) (running_app w) (expected_pin w)
    (entered w)
    (if bool_decide ((p, expected_pin w) ∈ entered w) then p :: paired w else paired w).

Definition feature_eqb (a b : FeatureName) : bool :=
  match a, b with
  | App, App | LaunchApp, LaunchApp | AppList, AppList => true
  | _, _ => false
  end.

Definition or_raise {A} (msg : string) (x : option A) : raises A :=
  match x with Some a => inr a | None => inl (Error msg) end.

Definition lib : Pyatv := {|
  Env := World;
  scan w := (if scan_ok w then inr (network w) else inl (Error "scan timed out"), w);
  connect config w :=
    if connect_ok w then (inr (next_ref w), bump w)
    else (inl (Error "connection refused"), w);
  pair config proto w := (inr (next_ref w), bump w);
  device_info atv w :=
    (if bool_decide (atv ∈ dead w) then inl (Error "connection lost") else inr tt, w);
  close atv w := (if close_ok w then inr tt else inl (Error "already closed"), w);
  remote_getattr atv method w := true;
  remote_call atv method w := (inr tt, w);
  in_state atv feature w := (inr (existsb (feature_eqb feature) (available w)), w);
  metadata_playing atv w := (or_raise "no metadata" (now_playing w), w);
  metadata_app atv w := (or_raise "no app" (running_app w), w);
  app_list atv w := (inr [], w);
  launch_app_op atv app_id w := (inr tt, w);
  begin pairing w := (inr tt, w);
  pin pairing code w := (inr tt, enter pairing code w);
  finish pairing w := (inr tt, complete pairing w);
  has_paired pairing w := bool_decide (pairing ∈ paired w);
  credentials pairing w :=
    if bool_decide (pairing ∈ paired w) then Some "1a2b:3c4d" else None;
  str_http status_code detail := pretty status_code +:+ ": " +:+ detail;
|}.

Definition living_room : BaseConfig := mkConfig "AA:BB:CC:DD:EE:01" "Living Room" "10.0.0.21".
Definition bedroom : BaseConfig := mkConfig "AA:BB:CC:DD:EE:02" "Bedroom" "10.0.0.22".

Definition kitchen : BaseConfig := mkConfig "AA:BB:CC:DD:EE:03" "Kitchen" "10.0.0.23".

Definition tv : string := identifier living_room.

Definition song : Playing :=
  mkPlaying (Some "Blue in Green") (Some "Miles Davis") (Some "Kind of Blue") None
    (Some (mkValue "MediaType.Music" true)) (Some (mkValue "DeviceState.Playing" true))
    (Some 42%Z) (Some 337%Z) None None.

(** Both devices on the network, everything working, nothing playing. *)
Definition quiet : World :=
  mkWorld [living_room; bedroom] true true true 0 [] [App; LaunchApp; AppList]
    None None "1234" [] [].

(** Handle 7 has lost its session; a new connection can be made. *)
Definition dropped : World :=
  mkWorld [living_room; bedroom] true true true 8 [7] [App; LaunchApp; AppList]
    None None "1234" [] [].

(** Handle 7 has lost its session and the device refuses connections. *)
Definition unreachable : World :=
  mkWorld [living_room; bedroom] true false true 8 [7] [App; LaunchApp; AppList]
    None None "1234" [] [].

(** A song is playing; the app query raises. *)
Definition playing_no_app : World :=
  mkWorld [living_room; bedroom] true true true 0 [] [App; LaunchApp; AppList]
    (Some song) None "1234" [] [].

(** A device that can neither list nor launch apps. *)
Definition no_apps : World :=
  mkWorld [living_room; bedroom] true true true 0 [] [App]
    None None "1234" [] [].

(** The process just after start-up with both devices cached. *)
Definition started (w : World) : State lib :=
  mkState (P := lib)
    (<[identifier bedroom := bedroom]> (<[identifier living_room := living_room]> ∅))
    ∅ None w.

(** Both devices cached and handle 7 pooled for the living room. *)
Definition connected (w : World) : State lib :=
  mkState (P := lib)
    (<[identifier bedroom := bedroom]> (<[identifier living_room := living_room]> ∅))
    (<[identifier living_room := 7]> ∅) None w.

(** A cache and a pool that know the kitchen only. *)
Definition outdated (w : World) : State lib :=
  mkState (P := lib)
    (<[identifier kitchen := kitchen]> ∅) (<[identifier kitchen := 3]> ∅) None w.

(** What the scripted devices report about themselves. *)
Definition details (atv : AppleTV) (w : World) : option string * option string :=
  (Some "AppleTV4KGen2", Some "17.4").

(** The network is down: a scan raises. *)
Definition offline : World :=
  mkWorld [] false true true 0 [] [App; LaunchApp; AppList] None None "1234" [] [].

(** Both devices cached; handle 7 pooled for the living room and handle 5
    for the bedroom. *)
Definition two_connected (w : World) : State lib :=
  mkState (P := lib)
    (<[identifier bedroom := bedroom]> (<[identifier living_room := living_room]> ∅))
    (<[identifier bedroom := 5]> (<[identifier living_room := 7]> ∅)) None w.

(** The scripted library for a device whose remote control has no volume
    keys. *)
Definition lib_without_volume : Pyatv := {|
  Env := World;
  scan := scan lib;
  connect := connect lib;
  pair := pair lib;
  device_info := device_info lib;
  close := close lib;
  remote_getattr atv method w :=
    negb (bool_decide (method = "volume_up") || bool_decide (method = "volume_down"));
  remote_call := remote_call lib;
  in_state := in_state lib;
  metadata_playing := metadata_playing lib;
  metadata_app := metadata_app lib;
  app_list := app_list lib;
  launch_app_op := launch_app_op lib;
  begin := begin lib;
  pin := pin lib;
  finish := finish lib;
  has_paired := has_paired lib;
  credentials := credentials lib;
  str_http := str_http lib;
|}.

(** The network is down and handle 3 has lost its session. *)
Definition cut_off : World :=
  mkWorld [] false true true 4 [3] [App; LaunchApp; AppList] None None "1234" [] [].

(** Both devices cached; handle 3 is still pooled for the kitchen, which
    the cache no longer holds. *)
Definition orphaned (w : World) : State lib :=
  mkState (P := lib)
    (<[identifier bedroom := bedroom]> (<[identifier living_room := living_room]> ∅))
    (<[identifier kitchen := 3]> ∅) None w.

(** An identifier no device has. *)
Definition nobody : string := "AA:BB:CC:DD:EE:99".

(** Pairing with the living room has been started. *)
Definition pairing_started : State lib :=
  final (start_pairing lib (identifier living_room) "companion" (started quiet)).

End Fake.

(** * Properties *)

Section Properties.

Context (P : Pyatv).

Implicit Types (s : State P) (device_id command : string) (atv : AppleTV).

Local Arguments assoc : simpl never.

(** ** Running the monad *)

Ltac run :=
  cbv beta iota zeta delta
    [mbind M_bind bind try_except call gets modify mret M_ret ret raise];
  cbn [result final calls world active_connections discovered_devices
       pairing_sessions set_world set_active_connections set_discovered_devices
       set_pairing_sessions fst snd app is_ok value_of].

Lemma run_bind {A B} (m : M P A) (k : A → M P B) s :
  (m ≫= k) s =
  match result (m s) with
  | inl e => mkOutcome (inl e) (final (m s)) (calls (m s))
  | inr a => mkOutcome (result (k a (final (m s)))) (final (k a (final (m s))))
               (calls (m s) ++ calls (k a (final (m s))))
  end.
Proof.
  run. destruct (m s) as [[e|a] s1 c1]; cbn [result final calls]; [done|].
  by destruct (k a s1).
Qed.

Lemma run_try {A} (body : M P A) (handler : Exception → M P A) s :
  try_except P body handler s =
  match result (body s) with
  | inr a => body s
  | inl e =>
      mkOutcome (result (handler e (final (body s)))) (final (handler e (final (body s))))
        (calls (body s) ++ calls (handler e (final (body s))))
  end.
Proof.
  run. destruct (body s) as [[e|a] s1 c1]; cbn [result final calls]; [|done].
  by destruct (handler e s1).
Qed.

Lemma outcome_eta {A} (o : Outcome P A) :
  mkOutcome (result o) (final o) (calls o) = o.
Proof. destruct o; reflexivity. Qed.

(** ** The two halves of [get_or_create_connection] *)

Lemma check_existing_absent device_id s :
  active_connections s !! device_id = None →
  check_existing P device_id s = mkOutcome (inr None) s [].
Proof. intros H. unfold check_existing. run. by rewrite H. Qed.

Lemma check_existing_live device_id s atv :
  active_connections s !! device_id = Some atv →
  is_ok (device_info P atv (world s)).1 = true →
  check_existing P device_id s =
    mkOutcome (inr (Some atv)) (set_world P (device_info P atv (world s)).2 s)
      [EvDeviceInfo atv true].
Proof.
  intros H Hok. unfold check_existing. run. rewrite H.
  destruct (device_info P atv (world s)) as [[e|[]] w]; [done|]. by run.
Qed.

Lemma check_existing_stale device_id s atv :
  active_connections s !! device_id = Some atv →
  is_ok (device_info P atv (world s)).1 = false →
  let closing := close P atv (device_info P atv (world s)).2 in
  check_existing P device_id s =
    mkOutcome (inr None)
      (set_active_connections P (delete device_id) (set_world P closing.2 s))
      [EvDeviceInfo atv false; EvClose atv (is_ok closing.1)].
Proof.
  intros H Hok closing. subst closing. unfold check_existing. run. rewrite H.
  destruct (device_info P atv (world s)) as [[e|[]] w]; [|done]. run.
  by destruct (close P atv w) as [[e'|[]] w'].
Qed.

Lemma acquire_absent device_id s :
  active_connections s !! device_id = None →
  get_or_create_connection P device_id s = lookup_and_connect P device_id s.
Proof.
  intros H. unfold get_or_create_connection. rewrite run_bind.
  rewrite (check_existing_absent _ _ H). cbn [result final calls app].
  apply outcome_eta.
Qed.

Lemma acquire_live device_id s atv :
  active_connections s !! device_id = Some atv →
  is_ok (device_info P atv (world s)).1 = true →
  get_or_create_connection P device_id s =
    mkOutcome (inr atv) (set_world P (device_info P atv (world s)).2 s)
      [EvDeviceInfo atv true].
Proof.
  intros H Hok. unfold get_or_create_connection. rewrite run_bind.
  rewrite (check_existing_live _ _ _ H Hok). done.
Qed.

Lemma acquire_stale device_id s atv :
  active_connections s !! device_id = Some atv →
  is_ok (device_info P atv (world s)).1 = false →
  let closing := close P atv (device_info P atv (world s)).2 in
  let discarded :=
    set_active_connections P (delete device_id) (set_world P closing.2 s) in
  let again := lookup_and_connect P device_id discarded in
  get_or_create_connection P device_id s =
    mkOutcome (result again) (final again)
      (EvDeviceInfo atv false :: EvClose atv (is_ok closing.1) :: calls again).
Proof.
  intros H Hok closing discarded again.
  unfold get_or_create_connection. rewrite run_bind.
  rewrite (check_existing_stale _ _ _ H Hok). done.
Qed.

Lemma connect_and_store_run device_id (config : BaseConfig) s :
  connect_and_store P device_id config s =
  match (connect P config (world s)).1 with
  | inr atv =>
      mkOutcome (inr atv)
        (set_active_connections P (<[device_id := atv]>)
           (set_world P (connect P config (world s)).2 s))
        [EvConnect config (Some atv)]
  | inl e =>
      mkOutcome (inl (HTTPException 500 ("Failed to connect: " +:+ str P e)))
        (set_world P (connect P config (world s)).2 s)
        [EvConnect config None]
  end.
Proof.
  unfold connect_and_store. run.
  by destruct (connect P config (world s)) as [[e|atv] w].
Qed.

Lemma lookup_and_connect_known device_id s config :
  discovered_devices s !! device_id = Some config →
  lookup_and_connect P device_id s = connect_and_store P device_id config s.
Proof.
  intros H. unfold lookup_and_connect. run.
  destruct (decide (is_Some (discovered_devices s !! device_id))) as [_|Hn];
    [|by rewrite H in Hn; destruct Hn; eauto].
  run. rewrite H.
  destruct (connect_and_store P device_id config s) as [r s' c].
  by destruct r.
Qed.

Lemma lookup_and_connect_unknown device_id s :
  discovered_devices s !! device_id = None →
  lookup_and_connect P device_id s =
    match (scan P (world s)).1 with
    | inl e => mkOutcome (inl e) (set_world P (scan P (world s)).2 s) [EvScan false]
    | inr devices =>
        let s1 := set_discovered_devices P (store_devices devices)
                    (set_world P (scan P (world s)).2 s) in
        match discovered_devices s1 !! device_id with
        | None =>
            mkOutcome
              (inl (HTTPException 404 ("Apple TV " +:+ device_id +:+ " not found")))
              s1 [EvScan true]
        | Some config =>
            mkOutcome (result (connect_and_store P device_id config s1))
              (final (connect_and_store P device_id config s1))
              (EvScan true :: calls (connect_and_store P device_id config s1))
        end
    end.
Proof.
  intros H. unfold lookup_and_connect, scan_apple_tvs. run.
  destruct (decide (is_Some (discovered_devices s !! device_id))) as [Hs|_];
    [by rewrite H in Hs; destruct Hs|].
  run. destruct (scan P (world s)) as [[e|devices] w]; [done|]. run.
  destruct (store_devices devices (discovered_devices s) !! device_id) as [config|]; [|done].
  destruct (connect_and_store P device_id config _) as [r s' c].
  by destruct r.
Qed.

(** The calls [lookup_and_connect] makes are a scan at most and then a
    connect at most; a handle it returns is the one that connect just
    produced, stored under the identifier; on failure the pool is as it
    was. *)
Lemma lookup_and_connect_spec device_id s :
  let o := lookup_and_connect P device_id s in
  Forall (λ ev, is_scan ev || is_connect ev = true) (calls o) ∧
  match result o with
  | inr atv =>
      active_connections (final o) = <[device_id := atv]> (active_connections s) ∧
      omap created (calls o) = [atv] ∧
      ∃ config, discovered_devices (final o) !! device_id = Some config ∧
                last (calls o) = Some (EvConnect config (Some atv))
  | inl _ =>
      active_connections (final o) = active_connections s ∧
      omap created (calls o) = []
  end.
Proof.
  assert (Hconn : ∀ config s',
    let o := connect_and_store P device_id config s' in
    Forall (λ ev, is_scan ev || is_connect ev = true) (calls o) ∧
    discovered_devices (final o) = discovered_devices s' ∧
    match result o with
    | inr atv =>
        active_connections (final o) = <[device_id := atv]> (active_connections s') ∧
        omap created (calls o) = [atv] ∧
        last (calls o) = Some (EvConnect config (Some atv))
    | inl _ =>
        active_connections (final o) = active_connections s' ∧
        omap created (calls o) = []
    end).
  { intros config s'. rewrite connect_and_store_run.
    destruct (connect P config (world s')) as [[e|atv] w]; run;
      repeat split; repeat constructor. }
  intros o. subst o.
  destruct (discovered_devices s !! device_id) as [config|] eqn:Hknown.
  - rewrite (lookup_and_connect_known _ _ _ Hknown).
    destruct (Hconn config s) as (Hcalls & Hreg & Hres). split; [done|].
    destruct (result (connect_and_store P device_id config s)); [done|].
    destruct Hres as (? & ? & ?). repeat split; try done.
    exists config. by rewrite Hreg.
  - rewrite (lookup_and_connect_unknown _ _ Hknown).
    destruct (scan P (world s)) as [[e|devices] w]; run.
    { repeat split; repeat constructor. }
    destruct (store_devices devices (discovered_devices s) !! device_id)
      as [config|] eqn:Hfound; run.
    2:{ repeat split; repeat constructor. }
    set (s1 := set_discovered_devices P (store_devices devices) (set_world P w s)).
    destruct (Hconn config s1) as (Hcalls & Hreg & Hres).
    split; [by constructor|].
    destruct (result (connect_and_store P device_id config s1)).
    + destruct Hres as [? Hc]. split; [done|]. by cbn [omap created].
    + destruct Hres as (? & Hc & Hlast). repeat split; try done.
      exists config. rewrite Hreg. split; [done|].
      destruct (calls (connect_and_store P device_id config s1)); [done|].
      by rewrite last_cons, Hlast.
Qed.

(** ** C3: repeated calls reuse one handle *)

(** A pooled handle whose probe does not fail is returned as it is: one
    probe, nothing else. *)
Lemma acquire_reuses device_id s atv :
  active_connections s !! device_id = Some atv →
  Forall (λ ev, is_failed_probe ev = false) (calls (get_or_create_connection P device_id s)) →
  get_or_create_connection P device_id s =
    mkOutcome (inr atv) (set_world P (device_info P atv (world s)).2 s)
      [EvDeviceInfo atv true].
Proof.
  intros Hpool Hprobes.
  destruct (is_ok (device_info P atv (world s)).1) eqn:Hprobe.
  - by apply acquire_live.
  - rewrite (acquire_stale _ _ _ Hpool Hprobe) in Hprobes.
    cbn [calls] in Hprobes. by apply Forall_cons in Hprobes as [? _].
Qed.

Lemma repeated_reuse n device_id atv : ∀ s,
  active_connections s !! device_id = Some atv →
  Forall (λ o, Forall (λ ev, is_failed_probe ev = false) (calls o))
    (acquire_repeatedly P n device_id s) →
  Forall (λ o, result o = inr atv ∧
               active_connections (final o) !! device_id = Some atv)
    (acquire_repeatedly P n device_id s) ∧
  omap created (all_calls (acquire_repeatedly P n device_id s)) = [] ∧
  omap closed (all_calls (acquire_repeatedly P n device_id s)) = [].
Proof.
  induction n as [|n IH]; intros s Hpool Hprobes; [by repeat constructor|].
  cbn [acquire_repeatedly] in *. apply Forall_cons in Hprobes as [Hfirst Hrest].
  rewrite (acquire_reuses _ _ _ Hpool Hfirst) in *. cbn [final] in *.
  destruct (IH (set_world P (device_info P atv (world s)).2 s)) as (Hall & Hc & Hd);
    [done..|].
  unfold all_calls in *. rewrite fmap_cons. cbn [concat calls app omap created closed].
  by repeat constructor.
Qed.

Lemma scan_and_connect_close_nothing (evs : list Event) :
  Forall (λ ev, is_scan ev || is_connect ev = true) evs → omap closed evs = [].
Proof.
  induction 1 as [|ev evs Hev _ IHevs]; [done|]. destruct ev; try done.
Qed.

(** Without assuming that any call succeeds: as long as no probe fails,
    consecutive calls for one identifier close nothing, have
    [pyatv.connect] produce one handle at most (none when the identifier
    was pooled at the start), and never return two different handles. *)
Lemma repeated_acquire_creates_at_most_one n device_id : ∀ s,
  let run := acquire_repeatedly P n device_id s in
  Forall (λ o, Forall (λ ev, is_failed_probe ev = false) (calls o)) run →
  (length (omap created (all_calls run)) ≤
     if decide (is_Some (active_connections s !! device_id)) then 0 else 1)%nat ∧
  omap closed (all_calls run) = [] ∧
  ∀ o o' a a', o ∈ run → o' ∈ run → result o = inr a → result o' = inr a' → a = a'.
Proof.
  induction n as [|n IH]; intros s run Hprobes; subst run.
  { split; [simpl; case_decide; lia|]. split; [reflexivity|].
    intros ???? Hin. by apply elem_of_nil in Hin. }
  assert (Hsame : ∀ atv (run : list (Outcome P AppleTV)),
            Forall (λ o, result o = inr atv ∧
                         active_connections (final o) !! device_id = Some atv) run →
            ∀ o o' a a', o ∈ run → o' ∈ run →
                         result o = inr a → result o' = inr a' → a = a').
  { intros atv run Hall o o' a a' Hin Hin' Hres Hres'.
    rewrite Forall_forall in Hall.
    destruct (Hall _ Hin) as [Ho _]. destruct (Hall _ Hin') as [Ho' _]. congruence. }
  destruct (active_connections s !! device_id) as [atv|] eqn:Hpool.
  - destruct (repeated_reuse (S n) device_id atv s Hpool Hprobes) as (Hall & Hc & Hd).
    rewrite Hc, Hd. case_decide as Hsome; [|by destruct Hsome; eauto].
    repeat split; [done..|]. by apply (Hsame atv).
  - case_decide as Hsome; [by destruct Hsome|].
    cbn [acquire_repeatedly] in *. apply Forall_cons in Hprobes as [Hfirst Hrest].
    rewrite acquire_absent in * by done.
    destruct (lookup_and_connect_spec device_id s) as [Hcalls Hres].
    apply scan_and_connect_close_nothing in Hcalls.
    unfold all_calls in *. rewrite fmap_cons. cbn [concat]. rewrite !omap_app, Hcalls.
    destruct (result (lookup_and_connect P device_id s)) as [e|atv] eqn:Hfirstres.
    + destruct Hres as [Hpool' Hnone]. rewrite Hnone.
      destruct (IH (final (lookup_and_connect P device_id s)) Hrest) as (Hlen & Hcl & Heq).
      unfold all_calls in Hlen, Hcl.
      rewrite Hpool', Hpool in Hlen. case_decide as Hsome'; [by destruct Hsome'|].
      rewrite Hcl. repeat split; [done..|].
      intros o o' a a' Hin Hin' Ho Ho'.
      apply elem_of_cons in Hin as [->|Hin]; [congruence|].
      apply elem_of_cons in Hin' as [->|Hin']; [congruence|].
      by apply (Heq o o').
    + destruct Hres as (Hstored & -> & _).
      assert (Hnow : active_connections (final (lookup_and_connect P device_id s))
                       !! device_id = Some atv)
        by (rewrite Hstored; apply lookup_insert_eq).
      destruct (repeated_reuse n device_id atv _ Hnow Hrest) as (Hall & Hc & Hd).
      unfold all_calls in Hc, Hd. rewrite Hc, Hd.
      repeat split; [done..|].
      apply (Hsame atv). constructor; [|done]. by rewrite Hfirstres.
Qed.

(** C3.  Take any number of consecutive calls for one identifier, the
    first of which yields a handle, with no probe failing along the way.
    Every call returns that handle and leaves it as the entry of the
    identifier; no handle is closed; and over the whole run
    [pyatv.connect] produced exactly one handle, the one returned, when
    the identifier had no entry at the start, and none when it had. *)
Theorem repeated_acquire_reuses_one_handle n device_id s atv :
  let run := acquire_repeatedly P (S n) device_id s in
  result (get_or_create_connection P device_id s) = inr atv →
  Forall (λ o, Forall (λ ev, is_failed_probe ev = false) (calls o)) run →
  Forall (λ o, result o = inr atv ∧
               active_connections (final o) !! device_id = Some atv) run ∧
  omap created (all_calls run) =
    (if decide (is_Some (active_connections s !! device_id)) then [] else [atv]) ∧
  omap closed (all_calls run) = [].
Proof.
  intros run Hfirst Hprobes. subst run.
  destruct (active_connections s !! device_id) as [pooled|] eqn:Hpool.
  - assert (pooled = atv) as ->.
    { apply Forall_cons in Hprobes as [Hp _]. cbn [acquire_repeatedly] in Hp.
      rewrite (acquire_reuses _ _ _ Hpool Hp) in Hfirst. by injection Hfirst. }
    destruct (decide (is_Some (Some atv))) as [_|Hn]; [|by destruct Hn; eauto].
    by apply repeated_reuse.
  - destruct (decide (is_Some (@None AppleTV))) as [[? ?]|_]; [done|].
    cbn [acquire_repeatedly] in *. apply Forall_cons in Hprobes as [_ Hrest].
    rewrite acquire_absent in * by done.
    destruct (lookup_and_connect_spec device_id s) as [Hcalls Hres].
    rewrite Hfirst in Hres. destruct Hres as (Hstored & Hcreated & _).
    assert (Hnow : active_connections (final (lookup_and_connect P device_id s))
                     !! device_id = Some atv)
      by (rewrite Hstored; apply lookup_insert_eq).
    destruct (repeated_reuse n device_id atv _ Hnow Hrest) as (Hall & Hc & Hd).
    unfold all_calls in *. rewrite fmap_cons. cbn [concat].
    rewrite !omap_app, Hc, Hd, Hcreated, !app_nil_r.
    split; [by constructor|]. split; [done|].
    by apply scan_and_connect_close_nothing.
Qed.

(** ** C4: a stale handle is closed, dropped and replaced *)

(** C4.  When the pooled handle of an identifier fails its probe, the
    call closes that handle and deletes the entry first; what follows is
    exactly [lookup_and_connect] run on the state without the entry, which
    makes no call but a scan and a connect.  A handle returned is the one
    that connect produced, and it is the new entry; when no handle can be
    produced the identifier is left without an entry. *)
Theorem stale_handle_closed_and_replaced device_id s atv :
  active_connections s !! device_id = Some atv →
  is_ok (device_info P atv (world s)).1 = false →
  let closing := close P atv (device_info P atv (world s)).2 in
  let discarded :=
    set_active_connections P (delete device_id) (set_world P closing.2 s) in
  let again := lookup_and_connect P device_id discarded in
  let o := get_or_create_connection P device_id s in
  active_connections discarded !! device_id = None ∧
  calls o = EvDeviceInfo atv false :: EvClose atv (is_ok closing.1) :: calls again ∧
  Forall (λ ev, is_scan ev || is_connect ev = true) (calls again) ∧
  result o = result again ∧
  final o = final again ∧
  match result o with
  | inr fresh =>
      omap created (calls o) = [fresh] ∧
      active_connections (final o) !! device_id = Some fresh ∧
      ∃ config, last (calls o) = Some (EvConnect config (Some fresh))
  | inl _ => active_connections (final o) !! device_id = None
  end.
Proof.
  intros Hpool Hdead closing discarded again o.
  assert (Hgone : active_connections discarded !! device_id = None)
    by apply lookup_delete_eq.
  subst o. rewrite (acquire_stale _ _ _ Hpool Hdead).
  fold closing. fold discarded. fold again. cbn [result final calls].
  destruct (lookup_and_connect_spec device_id discarded) as [Hcalls Hres].
  fold again in Hcalls, Hres.
  repeat split; try done.
  destruct (result again) as [e|fresh].
  - destruct Hres as [-> _]. done.
  - destruct Hres as (-> & Hcreated & config & _ & Hlast).
    split; [by cbn [omap created]|]. split; [apply lookup_insert_eq|].
    exists config. destruct (calls again); [done|].
    by rewrite !last_cons_cons.
Qed.

(** ** C5: a failed connect stores nothing *)

Lemma failed_connect_unpooled device_id s config :
  discovered_devices s !! device_id = Some config →
  active_connections s !! device_id = None →
  let o := lookup_and_connect P device_id s in
  EvConnect config None ∈ calls o →
  (∃ e, result o = inl (HTTPException 500 ("Failed to connect: " +:+ str P e))) ∧
  active_connections (final o) = active_connections s ∧
  discovered_devices (final o) = discovered_devices s ∧
  ∃ r, calls (get_or_create_connection P device_id (final o)) = [EvConnect config r].
Proof.
  intros Hknown Hfree o Hfailed. subst o.
  rewrite (lookup_and_connect_known _ _ _ Hknown), connect_and_store_run in *.
  destruct (connect P config (world s)) as [[e|atv] w] eqn:Hconnect;
    cbn [fst snd calls result final] in *.
  2:{ apply list_elem_of_singleton in Hfailed. done. }
  split; [by exists e|]. split; [done|]. split; [done|].
  rewrite acquire_absent by done.
  rewrite (lookup_and_connect_known _ _ config) by done.
  rewrite connect_and_store_run. cbn [world set_world].
  destruct (connect P config w) as [[e'|atv'] w']; cbn [fst calls]; eauto.
Qed.

(** C5, amended.  For an identifier whose configuration is cached, a call
    in which [pyatv.connect] fails ends in the 500 error carrying the
    cause, leaves the cache as it was and leaves the pool as it was except
    that the identifier has no entry: with no entry before the call the
    pool is unchanged, and a stale entry discarded on the way stays
    discarded.  The next call for the identifier connects again. *)
Theorem failed_connect_is_not_cached device_id s config :
  discovered_devices s !! device_id = Some config →
  let o := get_or_create_connection P device_id s in
  EvConnect config None ∈ calls o →
  (∃ e, result o = inl (HTTPException 500 ("Failed to connect: " +:+ str P e))) ∧
  active_connections (final o) = delete device_id (active_connections s) ∧
  (active_connections s !! device_id = None →
   active_connections (final o) = active_connections s) ∧
  discovered_devices (final o) = discovered_devices s ∧
  ∃ r, calls (get_or_create_connection P device_id (final o)) = [EvConnect config r].
Proof.
  intros Hknown o Hfailed. subst o.
  destruct (active_connections s !! device_id) as [atv|] eqn:Hpool.
  - destruct (is_ok (device_info P atv (world s)).1) eqn:Hprobe.
    { rewrite (acquire_live _ _ _ Hpool Hprobe) in Hfailed.
      apply list_elem_of_singleton in Hfailed. done. }
    rewrite (acquire_stale _ _ _ Hpool Hprobe) in *. cbn [result final calls] in *.
    set (discarded := set_active_connections P (delete device_id) _) in *.
    assert (Hin : EvConnect config None ∈ calls (lookup_and_connect P device_id discarded)).
    { apply elem_of_cons in Hfailed as [?|Hfailed]; [done|].
      apply elem_of_cons in Hfailed as [?|Hfailed]; done. }
    destruct (failed_connect_unpooled device_id discarded config)
      as (Herr & Hsame & Hreg & Hnext); try done.
    apply lookup_delete_eq.
  - rewrite acquire_absent in * by done.
    destruct (failed_connect_unpooled device_id s config)
      as (Herr & Hsame & Hreg & Hnext); try done.
    repeat split; try done.
    rewrite Hsame. symmetry. by apply delete_id.
Qed.

(** ** C9: closing every connection *)

Lemma close_each_run items : ∀ s,
  let o := close_each P items s in
  result o = inr tt ∧
  omap closed (calls o) = items.*2 ∧
  Forall (λ ev, is_Some (closed ev)) (calls o) ∧
  active_connections (final o) = active_connections s ∧
  discovered_devices (final o) = discovered_devices s ∧
  pairing_sessions (final o) = pairing_sessions s.
Proof.
  induction items as [|[device_id atv] rest IH]; intros s; [by repeat constructor|].
  cbn [close_each]. run.
  destruct (close P atv (world s)) as [[e|[]] w]; run;
    (specialize (IH (set_world P w s));
     destruct (close_each P rest (set_world P w s)) as [r s2 c2];
     cbn [result final calls] in *;
     destruct IH as (-> & Hclosed & Hall & -> & -> & ->);
     simpl; repeat split; try done;
     [f_equal; exact Hclosed | constructor; eauto]).
Qed.

(** C9.  [close_all_connections] never raises.  Its library calls are
    [close()] calls and nothing else, one for each entry the pool held, on
    that entry's handle, whether or not an earlier close raised; afterwards
    the pool is empty and the cache of devices is untouched. *)
Theorem close_all_closes_each_once s :
  let o := close_all_connections P s in
  result o = inr tt ∧
  omap closed (calls o) = (map_to_list (active_connections s)).*2 ∧
  Forall (λ ev, is_Some (closed ev)) (calls o) ∧
  length (calls o) = size (active_connections s) ∧
  active_connections (final o) = ∅ ∧
  discovered_devices (final o) = discovered_devices s.
Proof.
  intros o. subst o. unfold close_all_connections. run.
  pose proof (close_each_run (map_to_list (active_connections s)) s) as Heach.
  destruct (close_each P (map_to_list (active_connections s)) s) as [r s2 c2].
  cbn [result final calls] in *.
  destruct Heach as (-> & Hclosed & Hall & _ & Hreg & _). run.
  rewrite app_nil_r. repeat split; try done.
  rewrite <- length_map_to_list, <- (length_fmap snd), <- Hclosed.
  clear Hclosed. induction Hall as [|ev evs [h Hev] _ IHevs]; [done|].
  change (omap closed (ev :: evs)) with
    (match closed ev with Some y => y :: omap closed evs | None => omap closed evs end).
  rewrite Hev. cbn [length]. by rewrite IHevs.
Qed.

(** ** C6: a rescan replaces the cache *)

Lemma store_devices_snoc devices (device : BaseConfig) d :
  store_devices (devices ++ [device]) d =
  <[identifier device := device]> (store_devices devices d).
Proof. unfold store_devices. by rewrite foldl_app. Qed.

(** After the loop an identifier maps to the last device found with it,
    or to what it mapped to before when no device has it. *)
Lemma store_devices_lookup devices d device_id :
  store_devices devices d !! device_id =
  match last (filter (λ device, identifier device = device_id) devices) with
  | Some device => Some device
  | None => d !! device_id
  end.
Proof.
  induction devices as [|device devices IH] using rev_ind; [done|].
  rewrite store_devices_snoc, filter_app, last_app.
  rewrite filter_cons, filter_nil.
  destruct (decide (identifier device = device_id)) as [<-|Hne].
  - by rewrite lookup_insert_eq.
  - by rewrite lookup_insert_ne.
Qed.

Lemma store_devices_items devices :
  NoDup (identifier <$> devices) →
  map_to_list (store_devices devices ∅) ≡ₚ (λ device, (identifier device, device)) <$> devices.
Proof.
  induction devices as [|device devices IH] using rev_ind; intros Hnodup.
  - unfold store_devices. cbn [foldl]. by rewrite map_to_list_empty.
  - rewrite fmap_app in Hnodup. apply NoDup_app in Hnodup as (Hnd & Hfresh & _).
    rewrite store_devices_snoc, fmap_app, map_to_list_insert.
    + rewrite IH by done. cbn [fmap list_fmap]. by rewrite <- Permutation_cons_append.
    + rewrite store_devices_lookup, lookup_empty.
      destruct (last _) as [found|] eqn:Hlast; [|done].
      apply last_Some_elem_of, list_elem_of_filter in Hlast as [Hid Hin].
      exfalso. apply (Hfresh (identifier device)).
      * rewrite <- Hid. by apply list_elem_of_fmap_2.
      * apply list_elem_of_singleton. done.
Qed.

(** C6.  When the scan succeeds, [rescan_devices] makes that one library
    call and reports the devices found; afterwards the cache holds the
    scan's devices under their identifiers and nothing of what it held
    before, and the pool is as it was.  With pairwise distinct identifiers
    in the scan, [list_devices] then lists exactly the scan's devices. *)
Theorem rescan_replaces_registry s devices w :
  scan P (world s) = (inr devices, w) →
  let o := rescan_devices P s in
  let entry device := device_entry (active_connections s) (identifier device) device in
  result o = inr (entry <$> devices) ∧
  calls o = [EvScan true] ∧
  discovered_devices (final o) = store_devices devices ∅ ∧
  (∀ device_id,
     discovered_devices (final o) !! device_id =
     last (filter (λ device, identifier device = device_id) devices)) ∧
  active_connections (final o) = active_connections s ∧
  (NoDup (identifier <$> devices) →
   ∃ listed, result (list_devices P (final o)) = inr listed ∧
             listed ≡ₚ entry <$> devices).
Proof.
  intros Hscan o entry. subst o entry.
  unfold rescan_devices, scan_apple_tvs. run. rewrite Hscan. run.
  repeat split; try done.
  - intros device_id. rewrite store_devices_lookup, lookup_empty.
    by destruct (last _).
  - intros Hnodup. unfold list_devices. run. eexists. split; [done|].
    rewrite (store_devices_items _ Hnodup), <- list_fmap_compose. done.
Qed.

(** ** C2 and C7: finishing a pairing *)

Lemma finish_pairing_no_session device_id request s :
  session_of P device_id s = None →
  finish_pairing P device_id request s =
    mkOutcome (inl (HTTPException 400 "No active pairing session")) s [].
Proof.
  intros Hnone. unfold finish_pairing, session_of in *. run. by rewrite Hnone.
Qed.

(** With a session stored, the PIN is the first thing handed to the
    library, and whatever goes wrong afterwards is reported as a 500. *)
Lemma finish_pairing_with_session device_id request s pairing :
  session_of P device_id s = Some pairing →
  let o := finish_pairing P device_id request s in
  head (calls o) =
    Some (EvPin pairing (request_pin request)
            (is_ok (pin P pairing (request_pin request) (world s)).1)) ∧
  ∀ status_code detail,
    result o = inl (HTTPException status_code detail) → status_code = 500.
Proof.
  intros Hsome o. subst o. unfold finish_pairing, session_of in *. run.
  rewrite Hsome.
  destruct (pin P pairing (request_pin request) (world s)) as [[e|[]] w1]; run.
  { split; [done|]. intros ?? [= <- _]. done. }
  destruct (finish P pairing w1) as [[e|[]] w2]; run.
  { split; [done|]. intros ?? [= <- _]. done. }
  destruct (has_paired P pairing w2); run.
  - split; [done|]. intros ?? [=].
  - split; [done|]. intros ?? [= <- _]. done.
Qed.

(** What the code answers when the library reports the handshake as not
    paired: the 400 raised in the [else] branch is caught by the handler
    of the enclosing [try] and turned into a 500. *)
Lemma finish_pairing_incomplete_status device_id request s pairing :
  session_of P device_id s = Some pairing →
  let entering := pin P pairing (request_pin request) (world s) in
  let finishing := finish P pairing entering.2 in
  is_ok entering.1 = true →
  is_ok finishing.1 = true →
  has_paired P pairing finishing.2 = false →
  result (finish_pairing P device_id request s) =
    inl (HTTPException 500
           ("Pairing failed: " +:+ str_http P 400 "Pairing not completed")).
Proof.
  intros Hsome entering finishing. subst entering finishing.
  unfold finish_pairing, session_of in *. run. rewrite Hsome.
  destruct (pin P pairing (request_pin request) (world s)) as [[e|[]] w1]; run; [done|].
  destruct (finish P pairing w1) as [[e|[]] w2]; run; [done|].
  intros _ _ ->. by run.
Qed.

(** C2, amended.  With a session stored for the identifier, when the PIN
    is accepted and the finish step returns but the library reports the
    handshake as not paired, [finish_pairing] fails and the session stays
    where it was.  A further [finish_pairing] for the identifier therefore
    does not answer "No active pairing session": it hands the new PIN to
    the same pairing object. *)
Theorem finish_pairing_incomplete_keeps_session device_id request s pairing :
  session_of P device_id s = Some pairing →
  let entering := pin P pairing (request_pin request) (world s) in
  let finishing := finish P pairing entering.2 in
  is_ok entering.1 = true →
  is_ok finishing.1 = true →
  has_paired P pairing finishing.2 = false →
  let o := finish_pairing P device_id request s in
  is_ok (result o) = false ∧
  pairing_sessions (final o) = pairing_sessions s ∧
  session_of P device_id (final o) = Some pairing ∧
  ∀ again,
    let o' := finish_pairing P device_id again (final o) in
    result o' ≠ inl (HTTPException 400 "No active pairing session") ∧
    head (calls o') =
      Some (EvPin pairing (request_pin again)
              (is_ok (pin P pairing (request_pin again) finishing.2).1)).
Proof.
  intros Hsome entering finishing Hpin Hfinish Hnot o.
  assert (Hrun : is_ok (result o) = false ∧
                 pairing_sessions (final o) = pairing_sessions s ∧
                 world (final o) = finishing.2).
  { subst o entering finishing. unfold finish_pairing, session_of in *. run.
    rewrite Hsome.
    destruct (pin P pairing (request_pin request) (world s)) as [[e|[]] w1];
      run; [done|].
    revert Hfinish Hnot. run.
    destruct (finish P pairing w1) as [[e|[]] w2]; run; [done|].
    intros _ ->. by run. }
  destruct Hrun as (Hfails & Hkept & Hworld).
  assert (Hstill : session_of P device_id (final o) = Some pairing)
    by (unfold session_of in *; by rewrite Hkept).
  repeat split; try done.
  - intros Heq.
    destruct (finish_pairing_with_session device_id again (final o) pairing Hstill)
      as [_ Hstatus].
    specialize (Hstatus _ _ Heq). discriminate Hstatus.
  - destruct (finish_pairing_with_session device_id again (final o) pairing Hstill)
      as [Hhead _].
    by rewrite Hhead, Hworld.
Qed.

(** A successful [start_pairing] leaves a session for the identifier and
    tells the caller that a PIN is required. *)
Lemma start_pairing_stores_session device_id protocol s response :
  result (start_pairing P device_id protocol s) = inr response →
  is_Some (session_of P device_id (final (start_pairing P device_id protocol s))) ∧
  ps_requires_pin response = true.
Proof.
  unfold start_pairing, session_of. run.
  destruct (discovered_devices s !! device_id) as [config|]; run; [|done].
  destruct (pair P config _ (world s)) as [[e|pairing] w1]; run; [done|].
  destruct (begin P pairing w1) as [[e|[]] w2]; run; [done|].
  intros [= <-]. split; [|done]. cbn [from_option id]. rewrite lookup_insert_eq. eauto.
Qed.

(** C7.  After a successful [start_pairing], when the PIN is accepted,
    the finish step returns and the library reports the handshake as
    paired, [finish_pairing] returns the credentials the library issued
    and the session of the identifier is gone; a [finish_pairing] that
    follows answers "No active pairing session" with status 400 and calls
    nothing. *)
Theorem pairing_success_consumes_session device_id protocol request s response pairing :
  let o1 := start_pairing P device_id protocol s in
  result o1 = inr response →
  session_of P device_id (final o1) = Some pairing →
  let entering := pin P pairing (request_pin request) (world (final o1)) in
  let finishing := finish P pairing entering.2 in
  is_ok entering.1 = true →
  is_ok finishing.1 = true →
  has_paired P pairing finishing.2 = true →
  let o2 := finish_pairing P device_id request (final o1) in
  result o2 =
    inr (mkPairFinish "Pairing successful" (credentials P pairing finishing.2)) ∧
  session_of P device_id (final o2) = None ∧
  ∀ again,
    let o3 := finish_pairing P device_id again (final o2) in
    result o3 = inl (HTTPException 400 "No active pairing session") ∧
    calls o3 = [] ∧
    final o3 = final o2.
Proof.
  intros o1 _ Hsome entering finishing Hpin Hfinish Hpaired o2.
  assert (Hrun : result o2 =
                   inr (mkPairFinish "Pairing successful"
                          (credentials P pairing finishing.2)) ∧
                 session_of P device_id (final o2) = None).
  { subst o2 entering finishing. generalize dependent (final o1). intros s1 Hsome.
    unfold finish_pairing, session_of in *. run. rewrite Hsome.
    destruct (pin P pairing (request_pin request) (world s1)) as [[e|[]] w1];
      run; [done|].
    destruct (finish P pairing w1) as [[e|[]] w2]; run; [done|].
    intros _ _ ->. run. split; [done|].
    destruct (pairing_sessions s1) as [sessions|];
      cbn [fmap option_fmap option_map from_option id].
    - apply lookup_delete_eq.
    - apply lookup_empty. }
  destruct Hrun as [Hres Hgone]. repeat split; try done;
    by rewrite (finish_pairing_no_session _ _ _ Hgone).
Qed.

(** ** C1: an unknown command is rejected after the connection is obtained *)

(** C1, amended.  For a command name outside the catalog,
    [send_remote_command] first runs [get_or_create_connection] in full:
    its state changes and library calls are exactly those of that call,
    and nothing is called on the handle.  When the connection cannot be
    obtained its error is the result; otherwise the result is the 400
    error whose detail lists every catalog name. *)
Theorem send_unknown_command_after_acquire device_id command s :
  assoc command command_names = None →
  let acquired := get_or_create_connection P device_id s in
  let sent := send_remote_command P device_id command s in
  final sent = final acquired ∧
  calls sent = calls acquired ∧
  result sent =
    match result acquired with
    | inl e => inl e
    | inr _ =>
        inl (HTTPException 400
               ("Unknown command: " +:+ command +:+
                ". Available: up, down, left, right, select, menu, home, top_menu, play, pause, play_pause, stop, next, previous, skip_forward, skip_backward, volume_up, volume_down"))
    end.
Proof.
  intros Hunknown acquired sent. subst sent. unfold send_remote_command.
  rewrite run_bind. fold acquired.
  destruct (result acquired) as [e|atv]; [done|].
  rewrite Hunknown. run. by rewrite app_nil_r.
Qed.

(** ** C8: the now-playing snapshot survives failed queries *)

(** C8.  [get_now_playing] fails exactly when the connection cannot be
    obtained, and then with that call's error.  Otherwise it returns a
    snapshot for the identifier: the playback fields are those of the
    playback query when it succeeds and the defaults (all [None], state
    "unknown") when it raises; the app fields are those of the app the
    library reports when the feature is available and the app query
    returns one, and [None] in every other case, a raising query
    included.  Neither query affects the other's fields. *)
Theorem now_playing_tolerates_failed_queries device_id s :
  let acquired := get_or_create_connection P device_id s in
  let o := get_now_playing P device_id s in
  let shown (x : option PyValue) : option string :=
    match x with
    | Some v => if py_truthy v then Some (py_str v) else None
    | None => None
    end in
  match result acquired with
  | inl e => result o = inl e ∧ final o = final acquired ∧ calls o = calls acquired
  | inr atv =>
      let query := metadata_playing P atv (world (final acquired)) in
      let asked := in_state P atv App query.2 in
      let app_query := metadata_app P atv asked.2 in
      ∃ info,
        result o = inr info ∧
        device_id_of info = device_id ∧
        match query.1 with
        | inr current =>
            title info = p_title current ∧
            artist info = p_artist current ∧
            album info = p_album current ∧
            genre info = p_genre current ∧
            media_type info = shown (p_media_type current) ∧
            device_state info =
              match shown (p_device_state current) with
              | Some text => text
              | None => "unknown"
              end ∧
            position info = p_position current ∧
            total_time info = p_total_time current ∧
            repeat_mode info = shown (p_repeat current) ∧
            shuffle info = shown (p_shuffle current)
        | inl _ =>
            title info = None ∧ artist info = None ∧ album info = None ∧
            genre info = None ∧ media_type info = None ∧
            device_state info = "unknown" ∧
            position info = None ∧ total_time info = None ∧
            repeat_mode info = None ∧ shuffle info = None
        end ∧
        match asked.1 with
        | inr true =>
            match app_query.1 with
            | inr (Some found) =>
                app_name info = a_name found ∧
                app_id_of info = Some (a_identifier found)
            | _ => app_name info = None ∧ app_id_of info = None
            end
        | _ => app_name info = None ∧ app_id_of info = None
        end
  end.
Proof.
  intros acquired o shown. subst o. unfold get_now_playing. rewrite run_bind.
  fold acquired. destruct (result acquired) as [e|atv]; [done|].
  cbn [result final calls]. generalize (final acquired). intros s1. run.
  assert (Hshown : ∀ x, str_if x = shown x) by (by intros [[text []]|]).
  assert (Hstate : ∀ x, default "unknown" (str_if x) =
                        match shown x with Some text => text | None => "unknown" end)
    by (by intros [[text []]|]).
  destruct (metadata_playing P atv (world s1)) as [[e|current] w1]; run;
    (destruct (in_state P atv App w1) as [[e'|[]] w2]; run;
     [ | destruct (metadata_app P atv w2) as [[e''|[found|]] w3]; run | ];
     (eexists; split; [reflexivity|];
      cbn [device_id_of title artist album genre media_type device_state position
           total_time repeat_mode shuffle app_name app_id_of
           with_playing with_app NowPlayingInfo_new];
      rewrite ?Hshown, ?Hstate; repeat split; reflexivity)).
Qed.

(** ** C10: listing apps without the feature is not an error *)

(** C10.  On a connected device for which the library answers that the
    app-list feature is not available, [list_apps] returns an empty list
    with the message "App listing not supported on this device"; when it
    answers that the launch-app feature is not available, [launch_app]
    fails with status 400, "App launching not supported". *)
Theorem list_apps_unavailable_is_success device_id app_id s atv :
  let acquired := get_or_create_connection P device_id s in
  result acquired = inr atv →
  ((in_state P atv AppList (world (final acquired))).1 = inr false →
   result (list_apps P device_id s) =
     inr (mkAppsResponse [] (Some "App listing not supported on this device"))) ∧
  ((in_state P atv LaunchApp (world (final acquired))).1 = inr false →
   result (launch_app P device_id app_id s) =
     inl (HTTPException 400 "App launching not supported")).
Proof.
  intros acquired Hconnected. split; intros Hmissing.
  - unfold list_apps. rewrite run_bind. fold acquired. rewrite Hconnected.
    cbn [result final calls]. revert Hmissing. generalize (final acquired).
    intros s1. run.
    destruct (in_state P atv AppList (world s1)) as [[e|[]] w1]; run; done.
  - unfold launch_app. rewrite run_bind. fold acquired. rewrite Hconnected.
    cbn [result final calls]. revert Hmissing. generalize (final acquired).
    intros s1. run.
    destruct (in_state P atv LaunchApp (world s1)) as [[e|[]] w1]; run; done.
Qed.

(** * Further properties of the code *)

(** ** The connection pool *)

Lemma lookup_and_connect_sessions device_id s :
  pairing_sessions (final (lookup_and_connect P device_id s)) = pairing_sessions s.
Proof.
  destruct (discovered_devices s !! device_id) as [config|] eqn:Hknown.
  - rewrite (lookup_and_connect_known _ _ _ Hknown), connect_and_store_run.
    by destruct (connect P config (world s)) as [[e|atv] w].
  - rewrite (lookup_and_connect_unknown _ _ Hknown).
    destruct (scan P (world s)) as [[e|devices] w]; run; [done|].
    destruct (store_devices devices (discovered_devices s) !! device_id)
      as [config|]; [|done].
    rewrite connect_and_store_run. run.
    by destruct (connect P config w) as [[e|atv] w'].
Qed.

(** What a call does to the pool and to the pairing sessions, by case on
    the entry it finds. *)
Lemma acquire_pool_effect device_id s :
  let o := get_or_create_connection P device_id s in
  pairing_sessions (final o) = pairing_sessions s ∧
  match result o with
  | inr atv => active_connections (final o) = <[device_id := atv]> (active_connections s)
  | inl _ =>
      active_connections (final o) = active_connections s ∨
      active_connections (final o) = delete device_id (active_connections s)
  end.
Proof.
  intros o. subst o.
  destruct (active_connections s !! device_id) as [atv|] eqn:Hpool.
  - destruct (is_ok (device_info P atv (world s)).1) eqn:Hprobe.
    + rewrite (acquire_live _ _ _ Hpool Hprobe). run. split; [done|].
      symmetry. by apply insert_id.
    + rewrite (acquire_stale _ _ _ Hpool Hprobe). run.
      set (discarded := set_active_connections P (delete device_id) _).
      split; [by rewrite lookup_and_connect_sessions|].
      destruct (lookup_and_connect_spec device_id discarded) as [_ Hres].
      destruct (result (lookup_and_connect P device_id discarded)).
      * destruct Hres as [-> _]. by right.
      * destruct Hres as [-> _]. subst discarded. run. apply insert_delete_eq.
  - rewrite acquire_absent by done. split; [apply lookup_and_connect_sessions|].
    destruct (lookup_and_connect_spec device_id s) as [_ Hres].
    destruct (result (lookup_and_connect P device_id s)).
    + destruct Hres as [-> _]. by left.
    + by destruct Hres as [-> _].
Qed.

(** X1.  A handle returned by [get_or_create_connection] is, after the
    call, the pool's entry for the identifier, and the pool differs from
    the one before the call in that entry only. *)
Theorem acquire_success_stores_handle device_id s atv :
  let o := get_or_create_connection P device_id s in
  result o = inr atv →
  active_connections (final o) = <[device_id := atv]> (active_connections s) ∧
  active_connections (final o) !! device_id = Some atv.
Proof.
  intros o Hres. destruct (acquire_pool_effect device_id s) as [_ Hpool].
  fold o in Hpool. rewrite Hres in Hpool. rewrite Hpool.
  split; [done | apply lookup_insert_eq].
Qed.

(** X2.  Whatever its outcome, [get_or_create_connection] leaves the
    entries of all other identifiers and the pairing sessions as they
    were. *)
Theorem acquire_leaves_other_entries device_id other s :
  other ≠ device_id →
  let o := get_or_create_connection P device_id s in
  active_connections (final o) !! other = active_connections s !! other ∧
  pairing_sessions (final o) = pairing_sessions s.
Proof.
  intros Hother o. destruct (acquire_pool_effect device_id s) as [Hsessions Hpool].
  fold o in Hsessions, Hpool. split; [|done].
  destruct (result o).
  - destruct Hpool as [-> | ->]; [done|]. by apply lookup_delete_ne.
  - rewrite Hpool. by apply lookup_insert_ne.
Qed.

(** X3.  For an identifier whose configuration is cached the call never
    scans, and the cache is not changed. *)
Theorem acquire_known_device_never_scans device_id s config :
  discovered_devices s !! device_id = Some config →
  let o := get_or_create_connection P device_id s in
  discovered_devices (final o) = discovered_devices s ∧
  Forall (λ ev, is_scan ev = false) (calls o).
Proof.
  intros Hknown o. subst o.
  assert (Hconnect : ∀ s', discovered_devices s' = discovered_devices s →
    discovered_devices (final (lookup_and_connect P device_id s')) = discovered_devices s ∧
    Forall (λ ev, is_scan ev = false) (calls (lookup_and_connect P device_id s'))).
  { intros s' Hsame.
    rewrite (lookup_and_connect_known _ s' config) by (by rewrite Hsame).
    rewrite connect_and_store_run.
    destruct (connect P config (world s')) as [[e|atv] w]; run;
      (split; [done | by repeat constructor]). }
  destruct (active_connections s !! device_id) as [atv|] eqn:Hpool.
  - destruct (is_ok (device_info P atv (world s)).1) eqn:Hprobe.
    + rewrite (acquire_live _ _ _ Hpool Hprobe). run. split; [done | by repeat constructor].
    + rewrite (acquire_stale _ _ _ Hpool Hprobe). run.
      destruct (Hconnect (set_active_connections P (delete device_id)
                  (set_world P (close P atv (device_info P atv (world s)).2).2 s)))
        as [Hreg Hcalls]; [done|].
      split; [done | by repeat constructor].
  - rewrite acquire_absent by done. by apply Hconnect.
Qed.

(** X4.  An identifier that is neither pooled nor cached triggers one
    scan.  When the scan does not find it the call ends in the 404 and
    connects to nothing; the devices the scan did find have been merged
    into the cache, which keeps every entry the scan did not touch. *)
Theorem acquire_unknown_device_not_found device_id s devices w :
  active_connections s !! device_id = None →
  discovered_devices s !! device_id = None →
  scan P (world s) = (inr devices, w) →
  device_id ∉ identifier <$> devices →
  let o := get_or_create_connection P device_id s in
  result o = inl (HTTPException 404 ("Apple TV " +:+ device_id +:+ " not found")) ∧
  calls o = [EvScan true] ∧
  active_connections (final o) = active_connections s ∧
  discovered_devices (final o) = store_devices devices (discovered_devices s) ∧
  ∀ other, other ∉ identifier <$> devices →
           discovered_devices (final o) !! other = discovered_devices s !! other.
Proof.
  intros Hpool Hknown Hscan Hmissing o. subst o.
  assert (Hkeeps : ∀ other, other ∉ identifier <$> devices →
            store_devices devices (discovered_devices s) !! other =
            discovered_devices s !! other).
  { intros other Hother. rewrite store_devices_lookup.
    destruct (last _) as [found|] eqn:Hlast; [|done].
    apply last_Some_elem_of, list_elem_of_filter in Hlast as [Hid Hin].
    exfalso. apply Hother. rewrite <- Hid. by apply list_elem_of_fmap_2. }
  rewrite acquire_absent by done.
  rewrite (lookup_and_connect_unknown _ _ Hknown), Hscan. run.
  rewrite (Hkeeps _ Hmissing), Hknown. run. repeat split; try done.
Qed.

(** A failed scan among the calls of [lookup_and_connect] means that the
    identifier was not cached and that the scan raised: the exception it
    raised is the result, and nothing but the world has changed. *)
Lemma lookup_and_connect_scan_raised device_id s :
  EvScan false ∈ calls (lookup_and_connect P device_id s) →
  ∃ e, (scan P (world s)).1 = inl e ∧
       lookup_and_connect P device_id s =
         mkOutcome (inl e) (set_world P (scan P (world s)).2 s) [EvScan false].
Proof.
  destruct (discovered_devices s !! device_id) as [config|] eqn:Hknown.
  - rewrite (lookup_and_connect_known _ _ _ Hknown), connect_and_store_run.
    destruct (connect P config (world s)) as [[cause|atv] w]; run;
      intros Hin; by apply list_elem_of_singleton in Hin.
  - rewrite (lookup_and_connect_unknown _ _ Hknown).
    destruct (scan P (world s)) as [[e|devices] w]; run; [by eauto|].
    destruct (store_devices devices (discovered_devices s) !! device_id) as [config|]; run.
    + rewrite connect_and_store_run.
      destruct (connect P config _) as [[cause|atv] w']; run;
        intros Hin; apply elem_of_cons in Hin as [?|Hin]; try done;
        by apply list_elem_of_singleton in Hin.
    + intros Hin. by apply list_elem_of_singleton in Hin.
Qed.

(** X5.  When the scan made by [get_or_create_connection] raises, the
    exception the scan raised is the result of the call as it is, not
    wrapped into an [HTTPException], and that scan is the last library
    call.  The cache is unchanged.  The pool is unchanged when the
    identifier had no entry; a stale entry discarded before the scan stays
    discarded.  The scan runs in the world the check of the pool left. *)
Theorem acquire_scan_failure_propagates device_id s :
  let o := get_or_create_connection P device_id s in
  EvScan false ∈ calls o →
  ∃ e,
    (scan P (world (final (check_existing P device_id s)))).1 = inl e ∧
    result o = inl e ∧
    last (calls o) = Some (EvScan false) ∧
    discovered_devices (final o) = discovered_devices s ∧
    active_connections (final o) = delete device_id (active_connections s) ∧
    (active_connections s !! device_id = None →
     active_connections (final o) = active_connections s).
Proof.
  intros o. subst o.
  destruct (active_connections s !! device_id) as [atv|] eqn:Hpool.
  - destruct (is_ok (device_info P atv (world s)).1) eqn:Hprobe.
    { rewrite (acquire_live _ _ _ Hpool Hprobe). cbn [calls].
      intros Hin. by apply list_elem_of_singleton in Hin. }
    rewrite (acquire_stale _ _ _ Hpool Hprobe), (check_existing_stale _ _ _ Hpool Hprobe).
    cbn [result final calls]. intros Hin.
    apply elem_of_cons in Hin as [?|Hin]; [done|].
    apply elem_of_cons in Hin as [?|Hin]; [done|].
    destruct (lookup_and_connect_scan_raised _ _ Hin) as (e & Hscan & ->).
    exists e. cbn [result final calls world set_world set_active_connections
                   discovered_devices active_connections] in *.
    repeat split; try done.
  - rewrite acquire_absent, (check_existing_absent _ _ Hpool) by done.
    cbn [final]. intros Hin.
    destruct (lookup_and_connect_scan_raised _ _ Hin) as (e & Hscan & ->).
    exists e. cbn [result final calls world set_world discovered_devices
                   active_connections].
    repeat split; try done. symmetry. by apply delete_id.
Qed.

Lemma lookup_and_connect_failure_kinds device_id s e :
  result (lookup_and_connect P device_id s) = inl e →
  e = HTTPException 404 ("Apple TV " +:+ device_id +:+ " not found") ∨
  (∃ cause, e = HTTPException 500 ("Failed to connect: " +:+ str P cause)) ∨
  ((scan P (world s)).1 = inl e ∧
   calls (lookup_and_connect P device_id s) = [EvScan false]).
Proof.
  assert (Hconnect : ∀ config s',
    result (connect_and_store P device_id config s') = inl e →
    ∃ cause, e = HTTPException 500 ("Failed to connect: " +:+ str P cause)).
  { intros config s'. rewrite connect_and_store_run.
    destruct (connect P config (world s')) as [[cause|atv] w]; run; [|done].
    intros [= <-]. eauto. }
  destruct (discovered_devices s !! device_id) as [config|] eqn:Hknown.
  - rewrite (lookup_and_connect_known _ _ _ Hknown). intros Hres. right. left. eauto.
  - rewrite (lookup_and_connect_unknown _ _ Hknown).
    destruct (scan P (world s)) as [[cause|devices] w]; run.
    { intros [= <-]. by right; right. }
    destruct (store_devices devices (discovered_devices s) !! device_id) as [config|]; run.
    + intros Hres. right. left. eauto.
    + intros [= <-]. by left.
Qed.

(** X6.  [get_or_create_connection] fails in three ways only: with the
    404 of an identifier no scan knows; with the 500 wrapping the cause of
    a refused connection; or with the very exception that its scan raised,
    that scan being the last library call made. *)
Theorem acquire_failure_kinds device_id s e :
  let o := get_or_create_connection P device_id s in
  result o = inl e →
  e = HTTPException 404 ("Apple TV " +:+ device_id +:+ " not found") ∨
  (∃ cause, e = HTTPException 500 ("Failed to connect: " +:+ str P cause)) ∨
  ((scan P (world (final (check_existing P device_id s)))).1 = inl e ∧
   last (calls o) = Some (EvScan false)).
Proof.
  intros o. subst o.
  destruct (active_connections s !! device_id) as [atv|] eqn:Hpool.
  - destruct (is_ok (device_info P atv (world s)).1) eqn:Hprobe.
    + by rewrite (acquire_live _ _ _ Hpool Hprobe).
    + rewrite (acquire_stale _ _ _ Hpool Hprobe), (check_existing_stale _ _ _ Hpool Hprobe).
      cbn [result final calls]. intros Hres.
      destruct (lookup_and_connect_failure_kinds _ _ _ Hres) as [?|[?|[Hscan Hcalls]]]; eauto.
      right. right. rewrite Hcalls. split; [exact Hscan | done].
  - rewrite acquire_absent, (check_existing_absent _ _ Hpool) by done.
    cbn [final]. intros Hres.
    destruct (lookup_and_connect_failure_kinds _ _ _ Hres) as [?|[?|[Hscan Hcalls]]]; eauto.
    right. right. by rewrite Hcalls.
Qed.

(** X7.  [disconnect_device] never raises.  It closes the pooled handle
    of the identifier, if there is one, whether or not the close raises,
    and deletes that entry only; without an entry it calls nothing and
    changes nothing. *)
Theorem disconnect_device_releases device_id s :
  let o := disconnect_device P device_id s in
  active_connections (final o) = delete device_id (active_connections s) ∧
  discovered_devices (final o) = discovered_devices s ∧
  pairing_sessions (final o) = pairing_sessions s ∧
  match active_connections s !! device_id with
  | Some atv =>
      result o = inr ("Disconnected from " +:+ device_id) ∧
      omap closed (calls o) = [atv] ∧ length (calls o) = 1
  | None =>
      result o = inr "Device was not connected" ∧ calls o = [] ∧ final o = s
  end.
Proof.
  intros o. subst o. unfold disconnect_device. run.
  destruct (active_connections s !! device_id) as [atv|] eqn:Hpool.
  - by destruct (close P atv (world s)) as [[e|[]] w].
  - run. repeat split; try done. symmetry. by apply delete_id.
Qed.

(** X8.  After [disconnect_device] for an identifier, and after
    [close_all_connections] for any identifier, the next
    [get_or_create_connection] probes and closes nothing: it makes no
    call but a scan and a connect, and a handle it returns is one that
    connect produced. *)
Theorem release_then_acquire_connects_afresh device_id s :
  connects_afresh P
    (get_or_create_connection P device_id (final (disconnect_device P device_id s))) ∧
  connects_afresh P
    (get_or_create_connection P device_id (final (close_all_connections P s))).
Proof.
  assert (Habsent : ∀ s', active_connections s' !! device_id = None →
    connects_afresh P (get_or_create_connection P device_id s')).
  { intros s' Hnone. unfold connects_afresh. rewrite acquire_absent by done.
    destruct (lookup_and_connect_spec device_id s') as [Hcalls Hres].
    split; [done|]. intros atv Hok. rewrite Hok in Hres. by destruct Hres as (_ & ? & _). }
  split; apply Habsent.
  - unfold disconnect_device. run.
    destruct (active_connections s !! device_id) as [atv|] eqn:Hpool; [|done].
    destruct (close P atv (world s)) as [[e|[]] w]; run; apply lookup_delete_eq.
  - unfold close_all_connections. run.
    pose proof (close_each_run (map_to_list (active_connections s)) s) as Heach.
    destruct (close_each P (map_to_list (active_connections s)) s) as [r s2 c2].
    cbn [result final calls] in *. destruct Heach as (-> & _). run.
    apply lookup_empty.
Qed.

(** X9.  A rescan does not cost a live connection: a handle pooled before
    a successful [rescan_devices] is returned by the next
    [get_or_create_connection] after one probe, without scan or connect,
    whether or not the rescan still found its device. *)
Theorem rescan_keeps_live_connections_usable device_id s atv devices w :
  active_connections s !! device_id = Some atv →
  scan P (world s) = (inr devices, w) →
  is_ok (device_info P atv w).1 = true →
  let o := get_or_create_connection P device_id (final (rescan_devices P s)) in
  result o = inr atv ∧
  calls o = [EvDeviceInfo atv true] ∧
  active_connections (final o) = active_connections s.
Proof.
  intros Hpool Hscan Hprobe o. subst o.
  assert (Hfinal : final (rescan_devices P s) =
            set_discovered_devices P (λ _, store_devices devices ∅) (set_world P w s)).
  { unfold rescan_devices, scan_apple_tvs. run. by rewrite Hscan. }
  rewrite Hfinal. by rewrite (acquire_live _ _ atv).
Qed.

(** ** The cache of devices *)

(** X10.  When the scan raises, [rescan_devices] answers with a 500
    naming the cause and the cache keeps what it held: it is cleared only
    once a scan has returned. *)
Theorem rescan_failure_keeps_registry s e w :
  scan P (world s) = (inl e, w) →
  let o := rescan_devices P s in
  result o = inl (HTTPException 500 ("Scan failed: " +:+ str P e)) ∧
  calls o = [EvScan false] ∧
  discovered_devices (final o) = discovered_devices s ∧
  active_connections (final o) = active_connections s.
Proof.
  intros Hscan o. subst o. unfold rescan_devices, scan_apple_tvs. run.
  by rewrite Hscan.
Qed.

(** X11.  [list_devices] reads the two dictionaries and nothing else: it
    calls nothing and changes nothing.  It lists every cached identifier
    once, with the name and address of its configuration, and flags it as
    connected exactly when the pool has an entry for it, live or not. *)
Theorem list_devices_entries s :
  let o := list_devices P s in
  calls o = [] ∧ final o = s ∧
  ∃ listed,
    result o = inr listed ∧
    NoDup (di_id <$> listed) ∧
    ∀ info, info ∈ listed ↔
      ∃ config,
        discovered_devices s !! di_id info = Some config ∧
        info = mkDeviceInfo (di_id info) (name config) (address config) None None
                 (bool_decide (is_Some (active_connections s !! di_id info))).
Proof.
  intros o. subst o. unfold list_devices. run. repeat split; try done.
  eexists. split; [done|]. split.
  - rewrite <- list_fmap_compose. apply NoDup_fst_map_to_list.
  - intros info. rewrite list_elem_of_fmap. split.
    + intros ([device_id config] & -> & Hin). apply elem_of_map_to_list in Hin.
      exists config. by cbn.
    + intros (config & Hknown & Hinfo). exists (di_id info, config).
      split; [by rewrite Hinfo at 1|]. by apply elem_of_map_to_list.
Qed.

(** X12.  [get_device] answers 404 for an identifier that is not cached
    and never fails for one that is.  It changes neither cache nor pool:
    a pooled handle is read once and, when the read raises, the device is
    still reported as connected, without model and version, and the
    handle stays in the pool. *)
Theorem get_device_outcomes details device_id s :
  let o := get_device P details device_id s in
  discovered_devices (final o) = discovered_devices s ∧
  active_connections (final o) = active_connections s ∧
  match discovered_devices s !! device_id with
  | None => result o = inl (HTTPException 404 "Device not found") ∧ calls o = []
  | Some config =>
      match active_connections s !! device_id with
      | None =>
          result o = inr (mkDeviceInfo device_id (name config) (address config)
                            None None false) ∧
          calls o = []
      | Some atv =>
          let reading := device_info P atv (world s) in
          calls o = [EvDeviceInfo atv (is_ok reading.1)] ∧
          result o =
            inr (if is_ok reading.1
                 then mkDeviceInfo device_id (name config) (address config)
                        (details atv reading.2).1 (details atv reading.2).2 true
                 else mkDeviceInfo device_id (name config) (address config)
                        None None true)
      end
  end.
Proof.
  intros o. subst o. unfold get_device, device_entry. run.
  destruct (discovered_devices s !! device_id) as [config|]; run; [|done].
  destruct (active_connections s !! device_id) as [atv|] eqn:Hpool; run; [|done].
  by destruct (device_info P atv (world s)) as [[e|[]] w].
Qed.

(** X13.  The start-up scan never keeps the service from starting: it
    makes one scan, merges what it finds into the cache, and when the
    scan raises it goes on with the cache as it was.  The pool is not
    touched. *)
Theorem lifespan_startup_never_fails s :
  let o := lifespan_startup P s in
  let scanning := scan P (world s) in
  result o = inr tt ∧
  calls o = [EvScan (is_ok scanning.1)] ∧
  active_connections (final o) = active_connections s ∧
  discovered_devices (final o) =
    match scanning.1 with
    | inr devices => store_devices devices (discovered_devices s)
    | inl _ => discovered_devices s
    end.
Proof.
  intros o scanning. subst o scanning. unfold lifespan_startup, scan_apple_tvs. run.
  by destruct (scan P (world s)) as [[e|devices] w].
Qed.

(** X14.  After a successful rescan that found pairwise distinct
    identifiers, [health_check] reports as many discovered devices as the
    scan found and as many active connections as the pool held before
    the rescan. *)
Theorem health_check_after_rescan s devices w :
  scan P (world s) = (inr devices, w) →
  NoDup (identifier <$> devices) →
  result (health_check P (final (rescan_devices P s))) =
    inr (mkHealth "healthy" (length devices) (size (active_connections s))).
Proof.
  intros Hscan Hnodup.
  assert (Hfinal : final (rescan_devices P s) =
            set_discovered_devices P (λ _, store_devices devices ∅) (set_world P w s)).
  { unfold rescan_devices, scan_apple_tvs. run. by rewrite Hscan. }
  rewrite Hfinal. unfold health_check. run. do 2 f_equal.
  by rewrite <- length_map_to_list, (store_devices_items _ Hnodup), length_fmap.
Qed.

(** ** Pairing *)

(** X15.  [start_pairing] for an identifier that is not cached answers
    404 at once: unlike [get_or_create_connection] it does not scan, and
    it calls and changes nothing. *)
Theorem start_pairing_unknown_device device_id protocol s :
  discovered_devices s !! device_id = None →
  start_pairing P device_id protocol s =
    mkOutcome (inl (HTTPException 404 "Device not found")) s [].
Proof. intros Hunknown. unfold start_pairing. run. by rewrite Hunknown. Qed.

(** X16.  A [start_pairing] that fails stores no session and leaves the
    sessions there are untouched; its error is the 404 of an unknown
    device or a 500 carrying the cause the library gave. *)
Theorem start_pairing_failure_stores_nothing device_id protocol s e :
  let o := start_pairing P device_id protocol s in
  result o = inl e →
  pairing_sessions (final o) = pairing_sessions s ∧
  (e = HTTPException 404 "Device not found" ∨
   ∃ cause, e = HTTPException 500 ("Pairing failed: " +:+ str P cause)).
Proof.
  intros o. subst o. unfold start_pairing. run.
  destruct (discovered_devices s !! device_id) as [config|]; run.
  2:{ intros [= <-]. eauto. }
  destruct (pair P config _ (world s)) as [[cause|pairing] w1]; run.
  { intros [= <-]. eauto. }
  destruct (begin P pairing w1) as [[cause|[]] w2]; run; [|done].
  intros [= <-]. eauto.
Qed.

(** X17.  A [start_pairing] that succeeds made two library calls, the
    request for a pairing object and its [begin()], and stored that
    object as the session of the identifier.  A session already stored
    for the identifier is overwritten without any call on the old object;
    the sessions of other identifiers are kept. *)
Theorem start_pairing_replaces_session device_id protocol s response :
  let o := start_pairing P device_id protocol s in
  result o = inr response →
  ∃ config pairing,
    discovered_devices s !! device_id = Some config ∧
    calls o =
      [EvPair config (if decide (lower protocol = "companion") then Companion else AirPlay)
         (Some pairing);
       EvBegin pairing true] ∧
    pairing_sessions (final o) =
      Some (<[device_id := pairing]> (default ∅ (pairing_sessions s))) ∧
    session_of P device_id (final o) = Some pairing ∧
    (∀ other, other ≠ device_id →
              session_of P other (final o) = session_of P other s) ∧
    ps_protocol response = protocol ∧ ps_requires_pin response = true.
Proof.
  intros o. subst o. unfold start_pairing, session_of. run.
  destruct (discovered_devices s !! device_id) as [config|]; run; [|done].
  destruct (pair P config _ (world s)) as [[cause|pairing] w1]; run; [done|].
  destruct (begin P pairing w1) as [[cause|[]] w2]; run; [done|].
  intros [= <-]. exists config, pairing. cbn [from_option id].
  repeat split; try done.
  - apply lookup_insert_eq.
  - intros other Hother. by apply lookup_insert_ne.
Qed.

(** X18.  Pairing does not use the pool: neither [start_pairing] nor
    [finish_pairing] changes the cache of devices or the pool, whatever
    the library does. *)
Theorem pairing_leaves_pool_and_registry device_id protocol request s :
  let started := start_pairing P device_id protocol s in
  let finished := finish_pairing P device_id request s in
  (discovered_devices (final started) = discovered_devices s ∧
   active_connections (final started) = active_connections s) ∧
  (discovered_devices (final finished) = discovered_devices s ∧
   active_connections (final finished) = active_connections s).
Proof.
  intros started finished. subst started finished. split.
  - unfold start_pairing. run.
    destruct (discovered_devices s !! device_id) as [config|] eqn:Hknown; run; [|done].
    destruct (pair P config _ (world s)) as [[cause|pairing] w1]; run; [done|].
    by destruct (begin P pairing w1) as [[cause|[]] w2].
  - unfold finish_pairing. run.
    destruct (default ∅ (pairing_sessions s) !! device_id) as [pairing|]; run; [|done].
    destruct (pin P pairing (request_pin request) (world s)) as [[e|[]] w1]; run; [done|].
    destruct (finish P pairing w1) as [[e|[]] w2]; run; [done|].
    by destruct (has_paired P pairing w2).
Qed.

(** X19.  Without a session for the identifier, and in particular before
    any [start_pairing] has run in the process, [finish_pairing] answers
    400 "No active pairing session"; nothing is handed to the library and
    nothing changes. *)
Theorem finish_pairing_without_session device_id request s :
  (pairing_sessions s = None ∨
   ∃ sessions, pairing_sessions s = Some sessions ∧ sessions !! device_id = None) →
  let o := finish_pairing P device_id request s in
  result o = inl (HTTPException 400 "No active pairing session") ∧
  calls o = [] ∧
  final o = s.
Proof.
  intros Hnone o. subst o.
  rewrite finish_pairing_no_session; [done|]. unfold session_of.
  destruct Hnone as [-> | (sessions & -> & Hnone)]; [apply lookup_empty | done].
Qed.

(** X20.  A [finish_pairing] that fails, for whatever reason, leaves every
    session in place, the one it worked on included.  Its error is the
    400 of a missing session or a 500. *)
Theorem finish_pairing_failure_keeps_sessions device_id request s e :
  let o := finish_pairing P device_id request s in
  result o = inl e →
  pairing_sessions (final o) = pairing_sessions s ∧
  (e = HTTPException 400 "No active pairing session" ∨
   ∃ detail, e = HTTPException 500 ("Pairing failed: " +:+ detail)).
Proof.
  intros o. subst o. unfold finish_pairing. run.
  destruct (default ∅ (pairing_sessions s) !! device_id) as [pairing|]; run.
  2:{ intros [= <-]. eauto. }
  destruct (pin P pairing (request_pin request) (world s)) as [[cause|[]] w1]; run.
  { intros [= <-]. eauto. }
  destruct (finish P pairing w1) as [[cause|[]] w2]; run.
  { intros [= <-]. eauto. }
  destruct (has_paired P pairing w2); run; [done|].
  intros [= <-]. eauto.
Qed.

(** X21.  A [finish_pairing] that succeeds handed the PIN to the pairing
    object stored for the identifier, had it finish, found it paired, and
    deleted that session and no other. *)
Theorem finish_pairing_success_removes_only_its_session device_id request s response :
  let o := finish_pairing P device_id request s in
  result o = inr response →
  ∃ pairing,
    session_of P device_id s = Some pairing ∧
    calls o = [EvPin pairing (request_pin request) true; EvFinish pairing true] ∧
    has_paired P pairing (world (final o)) = true ∧
    response = mkPairFinish "Pairing successful" (credentials P pairing (world (final o))) ∧
    pairing_sessions (final o) = delete device_id <$> pairing_sessions s ∧
    session_of P device_id (final o) = None ∧
    ∀ other, other ≠ device_id →
             session_of P other (final o) = session_of P other s.
Proof.
  intros o. subst o. unfold finish_pairing, session_of. run.
  destruct (default ∅ (pairing_sessions s) !! device_id) as [pairing|]; run; [|done].
  destruct (pin P pairing (request_pin request) (world s)) as [[cause|[]] w1]; run; [done|].
  destruct (finish P pairing w1) as [[cause|[]] w2]; run; [done|].
  destruct (has_paired P pairing w2) eqn:Hpaired; run; [|done].
  intros [= <-]. exists pairing. repeat split; try done.
  - destruct (pairing_sessions s); cbn [fmap option_fmap option_map from_option id];
      [apply lookup_delete_eq | apply lookup_empty].
  - intros other Hother.
    destruct (pairing_sessions s); cbn [fmap option_fmap option_map from_option id];
      [by apply lookup_delete_ne | done].
Qed.

Lemma lower_ascii_idempotent c : lower_ascii (lower_ascii c) = lower_ascii c.
Proof. by destruct c as [[] [] [] [] [] [] [] []]. Qed.

Lemma lower_idempotent text : lower (lower text) = lower text.
Proof.
  induction text as [|c text IH]; [done|].
  cbn [lower]. by rewrite lower_ascii_idempotent, IH.
Qed.

(** X22.  The protocol name is matched without regard to the case of its
    ASCII letters: [start_pairing] asks the library for the same protocol,
    makes the same calls and leaves the same state for a name and for its
    lower-case form.  Only the text echoed to the caller differs. *)
Theorem start_pairing_protocol_ignores_case device_id protocol s :
  let o := start_pairing P device_id protocol s in
  let o' := start_pairing P device_id (lower protocol) s in
  calls o = calls o' ∧ final o = final o' ∧ is_ok (result o) = is_ok (result o').
Proof.
  intros o o'. subst o o'. unfold start_pairing. run. rewrite lower_idempotent.
  destruct (discovered_devices s !! device_id) as [config|]; run; [|done].
  destruct (pair P config _ (world s)) as [[cause|pairing] w1]; run; [done|].
  by destruct (begin P pairing w1) as [[cause|[]] w2].
Qed.

(** ** Remote commands, apps and now playing *)

Lemma assoc_identity (d : list (string * string)) command method :
  Forall (λ kv, kv.1 = kv.2) d → assoc command d = Some method → method = command.
Proof.
  induction 1 as [|[k v] d Hkv _ IH]; [done|].
  change (assoc command ((k, v) :: d))
    with (if decide (command = k) then Some v else assoc command d).
  case_decide; [|done]. intros [= <-]. cbn in Hkv. congruence.
Qed.

Lemma command_names_identity command method :
  assoc command command_names = Some method → method = command.
Proof. apply assoc_identity. by repeat constructor. Qed.

(** X23.  A catalog command that the device's remote control does not
    expose is refused with a 400 naming the command; after the connection
    has been obtained nothing more is called. *)
Theorem send_unsupported_command device_id command s atv method :
  let acquired := get_or_create_connection P device_id s in
  let sent := send_remote_command P device_id command s in
  result acquired = inr atv →
  assoc command command_names = Some method →
  remote_getattr P atv method (world (final acquired)) = false →
  result sent =
    inl (HTTPException 400
           ("Command '" +:+ command +:+ "' not supported by this Apple TV")) ∧
  calls sent = calls acquired ∧
  final sent = final acquired.
Proof.
  intros acquired sent Hconnected Hknown Hmissing. subst sent.
  unfold send_remote_command. rewrite run_bind. fold acquired.
  rewrite Hconnected, Hknown. run. rewrite Hmissing. by rewrite app_nil_r.
Qed.

(** X24.  A catalog command that the remote control exposes is invoked
    exactly once, under its own name, after the connection has been
    obtained: there is no retry.  The answer is the success body when the
    invocation returns and a 500 carrying the cause when it raises; pool
    and cache are as the acquisition left them. *)
Theorem send_supported_command_invoked_once device_id command s atv method :
  let acquired := get_or_create_connection P device_id s in
  let sent := send_remote_command P device_id command s in
  result acquired = inr atv →
  assoc command command_names = Some method →
  remote_getattr P atv method (world (final acquired)) = true →
  let invoked := remote_call P atv command (world (final acquired)) in
  method = command ∧
  calls sent = (calls acquired ++ [EvRemote atv command (is_ok invoked.1)])%list ∧
  result sent =
    match invoked.1 with
    | inr _ => inr (mkCommandResponse true command)
    | inl e => inl (HTTPException 500 ("Command failed: " +:+ str P e))
    end ∧
  active_connections (final sent) = active_connections (final acquired) ∧
  discovered_devices (final sent) = discovered_devices (final acquired).
Proof.
  intros acquired sent Hconnected Hknown Hpresent invoked. subst sent invoked.
  assert (method = command) as -> by (by apply command_names_identity).
  unfold send_remote_command. rewrite run_bind. fold acquired.
  rewrite Hconnected, Hknown. run. rewrite Hpresent.
  by destruct (remote_call P atv command (world (final acquired))) as [[e|[]] w].
Qed.

(** X25.  On a connected device [launch_app] asks for the feature once.
    If the library says it is available the app is launched with one
    call, and the answer is the success body or, when the launch raises
    an ordinary exception, a 500 carrying the cause; an exception raised
    by the feature query is treated the same way.  An [HTTPException]
    raised inside is passed on unchanged. *)
Theorem launch_app_outcomes device_id app_id s atv :
  let acquired := get_or_create_connection P device_id s in
  let o := launch_app P device_id app_id s in
  result acquired = inr atv →
  let asked := in_state P atv LaunchApp (world (final acquired)) in
  let launched := launch_app_op P atv app_id asked.2 in
  let reported (e : Exception) : raises LaunchResponse :=
    match e with
    | HTTPException _ _ => inl e
    | Error _ => inl (HTTPException 500 ("Failed to launch app: " +:+ str P e))
    end in
  match asked.1 with
  | inr true =>
      calls o = (calls acquired ++
        [EvInState atv LaunchApp true; EvLaunchApp atv app_id (is_ok launched.1)])%list ∧
      result o =
        match launched.1 with
        | inr _ => inr (mkLaunchResponse true app_id)
        | inl e => reported e
        end
  | inr false =>
      calls o = (calls acquired ++ [EvInState atv LaunchApp true])%list ∧
      result o = inl (HTTPException 400 "App launching not supported")
  | inl e =>
      calls o = (calls acquired ++ [EvInState atv LaunchApp false])%list ∧
      result o = reported e
  end.
Proof.
  intros acquired o Hconnected asked launched reported.
  subst o asked launched reported.
  unfold launch_app. rewrite run_bind. fold acquired. rewrite Hconnected.
  cbn [result final calls]. generalize (final acquired). intros s1. run.
  destruct (in_state P atv LaunchApp (world s1)) as [[e|[]] w1]; run; cbn [negb]; run.
  - by destruct e; run; rewrite ?app_nil_r.
  - destruct (launch_app_op P atv app_id w1) as [[e|[]] w2]; run; [|done].
    by destruct e; run; rewrite ?app_nil_r.
  - done.
Qed.

(** X26.  On a connected device for which the library says the app list
    is available, [list_apps] fetches the list with one call and returns
    every app in the order received, as identifier and name, without a
    message; when the fetch or the feature query raises, the answer is a
    500 carrying the cause. *)
Theorem list_apps_outcomes device_id s atv :
  let acquired := get_or_create_connection P device_id s in
  let o := list_apps P device_id s in
  result acquired = inr atv →
  let asked := in_state P atv AppList (world (final acquired)) in
  let fetched := app_list P atv asked.2 in
  match asked.1 with
  | inr true =>
      calls o = (calls acquired ++
        [EvInState atv AppList true; EvAppList atv (is_ok fetched.1)])%list ∧
      result o =
        match fetched.1 with
        | inr apps =>
            inr (mkAppsResponse ((λ a, (a_identifier a, a_name a)) <$> apps) None)
        | inl e => inl (HTTPException 500 ("Failed to list apps: " +:+ str P e))
        end
  | inr false => calls o = (calls acquired ++ [EvInState atv AppList true])%list
  | inl e =>
      calls o = (calls acquired ++ [EvInState atv AppList false])%list ∧
      result o = inl (HTTPException 500 ("Failed to list apps: " +:+ str P e))
  end.
Proof.
  intros acquired o Hconnected asked fetched. subst o asked fetched.
  unfold list_apps. rewrite run_bind. fold acquired. rewrite Hconnected.
  cbn [result final calls]. generalize (final acquired). intros s1. run.
  destruct (in_state P atv AppList (world s1)) as [[e|[]] w1]; run; cbn [negb]; run.
  - by rewrite ?app_nil_r.
  - by destruct (app_list P atv w1) as [[e|apps] w2]; run; rewrite ?app_nil_r.
  - by rewrite ?app_nil_r.
Qed.

(** X27.  After the connection has been obtained, [get_now_playing] makes
    the playback query once, asks once whether the app feature is
    available, and makes the app query only when the library said it is;
    it calls nothing else and leaves pool and cache as the acquisition
    left them. *)
Theorem now_playing_queries device_id s atv :
  let acquired := get_or_create_connection P device_id s in
  let o := get_now_playing P device_id s in
  result acquired = inr atv →
  let query := metadata_playing P atv (world (final acquired)) in
  let asked := in_state P atv App query.2 in
  let app_query := metadata_app P atv asked.2 in
  calls o =
    (calls acquired ++
     [EvPlaying atv (is_ok query.1); EvInState atv App (is_ok asked.1)] ++
     match asked.1 with
     | inr true => [EvApp atv (is_ok app_query.1)]
     | _ => []
     end)%list ∧
  active_connections (final o) = active_connections (final acquired) ∧
  discovered_devices (final o) = discovered_devices (final acquired).
Proof.
  intros acquired o Hconnected query asked app_query. subst o query asked app_query.
  unfold get_now_playing. rewrite run_bind. fold acquired. rewrite Hconnected.
  cbn [result final calls]. generalize (final acquired). intros s1. run.
  destruct (metadata_playing P atv (world s1)) as [[e|current] w1]; run;
    (destruct (in_state P atv App w1) as [[e'|[]] w2]; run;
     [done | | done];
     by destruct (metadata_app P atv w2) as [[e''|[found|]] w3]).
Qed.

(** X28.  [connect_device] fails exactly when the connection cannot be
    obtained, with that error.  Otherwise it reports the name of the
    cached configuration; it reports "Unknown" only for an identifier
    that is not cached, and that happens only when the handle was already
    pooled, since a connection made during the call needs the
    configuration. *)
Theorem connect_device_outcomes device_id s :
  let acquired := get_or_create_connection P device_id s in
  let o := connect_device P device_id s in
  calls o = calls acquired ∧ final o = final acquired ∧
  match result acquired with
  | inl e => result o = inl e
  | inr atv =>
      match discovered_devices (final acquired) !! device_id with
      | Some config => result o = inr (mkConnectResponse true device_id (name config))
      | None =>
          result o = inr (mkConnectResponse true device_id "Unknown") ∧
          active_connections s !! device_id = Some atv
      end
  end.
Proof.
  intros acquired o. subst o. unfold connect_device. rewrite run_bind. fold acquired.
  destruct (result acquired) as [e|atv] eqn:Hres; [done|]. run.
  rewrite app_nil_r. repeat split; try done.
  destruct (discovered_devices (final acquired) !! device_id) as [config|] eqn:Hknown;
    [done|]. split; [done|].
  subst acquired.
  destruct (active_connections s !! device_id) as [pooled|] eqn:Hpool.
  - destruct (is_ok (device_info P pooled (world s)).1) eqn:Hprobe.
    + rewrite (acquire_live _ _ _ Hpool Hprobe) in Hres. by injection Hres as ->.
    + rewrite (acquire_stale _ _ _ Hpool Hprobe) in Hres, Hknown.
      cbn [result final] in *.
      destruct (lookup_and_connect_spec device_id
                  (set_active_connections P (delete device_id)
                     (set_world P (close P pooled (device_info P pooled (world s)).2).2 s)))
        as [_ Hspec].
      rewrite Hres in Hspec. destruct Hspec as (_ & _ & config & Hcached & _). congruence.
  - rewrite acquire_absent in Hres, Hknown by done.
    destruct (lookup_and_connect_spec device_id s) as [_ Hspec].
    rewrite Hres in Hspec. destruct Hspec as (_ & _ & config & Hcached & _). congruence.
Qed.

End Properties.

(** * Concrete runs against the scripted library *)

Import Fake.

(** ** C1 *)

(** C1 as stated fails: with the living room cached and not yet
    connected, sending the unknown command "bogus" connects to the device
    and stores the handle before the command is rejected. *)
Lemma send_unknown_command_connects_first :
  let s := started quiet in
  let o := send_remote_command lib tv "bogus" s in
  assoc "bogus" command_names = None ∧
  active_connections s !! tv = None ∧
  calls o = [EvConnect living_room (Some 0)] ∧
  active_connections (final o) !! tv = Some 0 ∧
  ¬ (calls o = [] ∧ active_connections (final o) = active_connections s).
Proof.
  intros s o. repeat split; try (vm_compute; reflexivity).
  intros [Hcalls _]. vm_compute in Hcalls. discriminate Hcalls.
Qed.

(** For an identifier nobody knows, the same request triggers a scan and
    ends in the 404 of the lookup, not in the 400 of the catalog. *)
Example send_unknown_command_unknown_device :
  let o := send_remote_command lib "AA:BB:CC:DD:EE:99" "bogus" (started quiet) in
  calls o = [EvScan true] ∧
  result o = inl (HTTPException 404 "Apple TV AA:BB:CC:DD:EE:99 not found").
Proof. vm_compute. split; reflexivity. Qed.

Lemma send_unknown_command_after_acquire_witness :
  let acquired := get_or_create_connection lib tv (started quiet) in
  let sent := send_remote_command lib tv "bogus" (started quiet) in
  assoc "bogus" command_names = None ∧
  final sent = final acquired ∧
  calls sent = calls acquired.
Proof.
  intros acquired sent.
  assert (Hunknown : assoc "bogus" command_names = None) by reflexivity.
  destruct (send_unknown_command_after_acquire lib tv "bogus" (started quiet) Hunknown)
    as (Hfinal & Hcalls & _).
  split; [exact Hunknown|]. split; [exact Hfinal | exact Hcalls].
Defined.

(** ** C2 *)

(** C2 as stated fails: after a wrong PIN the library reports the
    handshake as not paired; the answer is a 500, not the 400 "Pairing not
    completed", the session is still stored, and a second attempt is not
    answered with "No active pairing session". *)
Lemma finish_pairing_incomplete_not_terminal :
  let request := mkPairingRequest "0000" in
  let o := finish_pairing lib tv request pairing_started in
  let o' := finish_pairing lib tv request (final o) in
  session_of lib tv pairing_started = Some 0 ∧
  has_paired lib 0 (world (final o)) = false ∧
  result o = inl (HTTPException 500 "Pairing failed: 400: Pairing not completed") ∧
  session_of lib tv (final o) = Some 0 ∧
  result o' = inl (HTTPException 500 "Pairing failed: 400: Pairing not completed") ∧
  ¬ (result o = inl (HTTPException 400 "Pairing not completed") ∧
     session_of lib tv (final o) = None ∧
     result o' = inl (HTTPException 400 "No active pairing session")).
Proof.
  vm_compute. repeat split; try reflexivity. intros [Hres _]. discriminate Hres.
Qed.

Lemma finish_pairing_incomplete_keeps_session_witness :
  let request := mkPairingRequest "0000" in
  let o := finish_pairing lib tv request pairing_started in
  session_of lib tv pairing_started = Some 0 ∧
  is_ok (result o) = false ∧
  session_of lib tv (final o) = Some 0.
Proof.
  intros request o.
  assert (Hsession : session_of lib tv pairing_started = Some 0) by reflexivity.
  destruct (finish_pairing_incomplete_keeps_session lib tv request pairing_started 0
              Hsession eq_refl eq_refl eq_refl) as (Hfails & _ & Hkept & _).
  split; [exact Hsession|]. split; [exact Hfails | exact Hkept].
Defined.

(** ** C3 *)

Lemma repeated_acquire_reuses_one_handle_witness :
  let run := acquire_repeatedly lib 3 tv (started quiet) in
  result (get_or_create_connection lib tv (started quiet)) = inr 0 ∧
  Forall (λ o, result o = inr 0 ∧ active_connections (final o) !! tv = Some 0) run ∧
  omap created (all_calls run) = [0] ∧
  omap closed (all_calls run) = [].
Proof.
  intros run.
  assert (Hfirst : result (get_or_create_connection lib tv (started quiet)) = inr 0)
    by reflexivity.
  assert (Hprobes : Forall (λ o, Forall (λ ev, is_failed_probe ev = false) (calls o)) run)
    by (vm_compute; repeat constructor).
  destruct (repeated_acquire_reuses_one_handle lib 2 tv (started quiet) 0 Hfirst Hprobes)
    as (Hall & Hcreated & Hclosed).
  split; [exact Hfirst|]. split; [exact Hall|]. split; [exact Hcreated | exact Hclosed].
Defined.

(** ** C4 *)

Lemma stale_handle_closed_and_replaced_witness :
  let o := get_or_create_connection lib tv (connected dropped) in
  active_connections (connected dropped) !! tv = Some 7 ∧
  is_ok (device_info lib 7 (world (connected dropped))).1 = false ∧
  calls o = [EvDeviceInfo 7 false; EvClose 7 true; EvConnect living_room (Some 8)] ∧
  result o = inr 8.
Proof.
  intros o.
  assert (Hpool : active_connections (connected dropped) !! tv = Some 7) by reflexivity.
  assert (Hdead : is_ok (device_info lib 7 (world (connected dropped))).1 = false)
    by reflexivity.
  destruct (stale_handle_closed_and_replaced lib tv (connected dropped) 7 Hpool Hdead)
    as (_ & Hcalls & _ & Hres & _).
  split; [exact Hpool|]. split; [exact Hdead|]. split; [exact Hcalls | exact Hres].
Defined.

(** ** C5 *)

(** C5 as stated fails: the pooled handle is stale and the device refuses
    the new connection; the call ends in the connection error and the pool
    has changed, the entry of the identifier having been removed. *)
Lemma failed_connect_after_stale_changes_pool :
  let s := connected unreachable in
  let o := get_or_create_connection lib tv s in
  discovered_devices s !! tv = Some living_room ∧
  calls o = [EvDeviceInfo 7 false; EvClose 7 true; EvConnect living_room None] ∧
  result o = inl (HTTPException 500 "Failed to connect: connection refused") ∧
  active_connections s !! tv = Some 7 ∧
  active_connections (final o) !! tv = None ∧
  ¬ (active_connections (final o) = active_connections s).
Proof.
  repeat split; try reflexivity.
  intros Hsame. apply (f_equal (λ pool, pool !! tv)) in Hsame.
  vm_compute in Hsame. discriminate Hsame.
Qed.

Lemma failed_connect_is_not_cached_witness :
  let s := connected unreachable in
  let o := get_or_create_connection lib tv s in
  discovered_devices s !! tv = Some living_room ∧
  EvConnect living_room None ∈ calls o ∧
  active_connections (final o) = delete tv (active_connections s) ∧
  discovered_devices (final o) = discovered_devices s.
Proof.
  intros s o.
  assert (Hknown : discovered_devices s !! tv = Some living_room) by reflexivity.
  assert (Hfailed : EvConnect living_room None ∈ calls o)
    by (vm_compute; repeat constructor).
  destruct (failed_connect_is_not_cached lib tv s living_room Hknown Hfailed)
    as (_ & Hpool & _ & Hreg & _).
  split; [exact Hknown|]. split; [exact Hfailed|]. split; [exact Hpool | exact Hreg].
Defined.

(** ** C6 *)

Lemma rescan_replaces_registry_witness :
  let o := rescan_devices lib (outdated quiet) in
  scan lib (world (outdated quiet)) = (inr [living_room; bedroom], quiet) ∧
  discovered_devices (final o) = store_devices [living_room; bedroom] ∅ ∧
  active_connections (final o) = active_connections (outdated quiet) ∧
  ∃ listed,
    result (list_devices lib (final o)) = inr listed ∧
    listed ≡ₚ [mkDeviceInfo "AA:BB:CC:DD:EE:01" "Living Room" "10.0.0.21" None None false;
               mkDeviceInfo "AA:BB:CC:DD:EE:02" "Bedroom" "10.0.0.22" None None false].
Proof.
  intros o.
  assert (Hscan : scan lib (world (outdated quiet)) = (inr [living_room; bedroom], quiet))
    by reflexivity.
  destruct (rescan_replaces_registry lib (outdated quiet) _ _ Hscan)
    as (_ & _ & Hreg & _ & Hpool & Hlist).
  split; [exact Hscan|]. split; [exact Hreg|]. split; [exact Hpool|].
  apply Hlist. vm_compute. repeat constructor; intros Hin;
    repeat (apply elem_of_cons in Hin as [Hin|Hin]; [discriminate Hin|]);
    by apply elem_of_nil in Hin.
Defined.

(** ** C7 *)

Lemma pairing_success_consumes_session_witness :
  let o1 := start_pairing lib tv "companion" (started quiet) in
  let o2 := finish_pairing lib tv (mkPairingRequest "1234") (final o1) in
  is_ok (result o1) = true ∧
  session_of lib tv (final o1) = Some 0 ∧
  has_paired lib 0 (world (final o2)) = true ∧
  result o2 = inr (mkPairFinish "Pairing successful" (Some "1a2b:3c4d")) ∧
  session_of lib tv (final o2) = None.
Proof.
  intros o1 o2.
  assert (Hstart : result o1 =
            inr (mkPairStart
                   "Pairing started with companion protocol. Enter the PIN shown on your Apple TV."
                   "companion" true)) by reflexivity.
  assert (Hsession : session_of lib tv (final o1) = Some 0) by reflexivity.
  destruct (pairing_success_consumes_session lib tv "companion" (mkPairingRequest "1234")
              (started quiet) _ 0 Hstart Hsession eq_refl eq_refl eq_refl)
    as (Hres & Hgone & _).
  split; [reflexivity|]. split; [exact Hsession|]. split; [reflexivity|].
  split; [exact Hres | exact Hgone].
Defined.

(** ** C8 *)

Lemma now_playing_tolerates_failed_queries_witness :
  result (get_now_playing lib tv (started playing_no_app)) =
  inr (mkNowPlaying tv (Some "Blue in Green") (Some "Miles Davis") (Some "Kind of Blue")
         None (Some "MediaType.Music") "DeviceState.Playing" (Some 42%Z) (Some 337%Z)
         None None None None).
Proof.
  pose proof (now_playing_tolerates_failed_queries lib tv (started playing_no_app)) as H.
  cbv zeta in H.
  remember (get_now_playing lib tv (started playing_no_app)) as o eqn:Ho in *.
  change (result (get_or_create_connection lib tv (started playing_no_app)))
    with (@inr Exception AppleTV 0) in H.
  cbv beta iota in H.
  destruct H as (info & Hres & Hid & Hplayback & Happ).
  change (metadata_playing lib 0
            (world (final (get_or_create_connection lib tv (started playing_no_app)))))
    with (@inr Exception Playing song,
          world (final (get_or_create_connection lib tv (started playing_no_app))))
    in Hplayback, Happ.
  cbn [fst snd] in Hplayback, Happ.
  vm_compute in Hplayback. vm_compute in Happ.
  destruct Hplayback as (Ht & Har & Hal & Hg & Hm & Hd & Hp & Htt & Hr & Hs).
  destruct Happ as (Han & Hai).
  rewrite Hres. f_equal. destruct info. cbn in *. by subst.
Defined.

(** The playback query answers and the app query raises: the snapshot
    carries the song and no app. *)
Example now_playing_without_app :
  result (get_now_playing lib tv (started playing_no_app)) =
  inr (mkNowPlaying tv (Some "Blue in Green") (Some "Miles Davis") (Some "Kind of Blue")
         None (Some "MediaType.Music") "DeviceState.Playing" (Some 42%Z) (Some 337%Z)
         None None None None).
Proof. reflexivity. Qed.

(** Neither query answers: the snapshot carries the defaults. *)
Example now_playing_nothing :
  result (get_now_playing lib tv (started quiet)) = inr (NowPlayingInfo_new tv).
Proof. reflexivity. Qed.

(** ** C9 *)

(** Two pooled handles whose [close()] raises: both are closed, the pool
    ends empty and the call returns. *)
Example close_all_with_raising_close :
  let w := mkWorld [] true true false 9 [] [] None None "1234" [] [] in
  let s := mkState (P := lib) ∅ (<[identifier bedroom := 8]> (<[tv := 7]> ∅)) None w in
  let o := close_all_connections lib s in
  result o = inr tt ∧
  calls o ≡ₚ [EvClose 7 false; EvClose 8 false] ∧
  active_connections (final o) = ∅.
Proof. vm_compute. repeat split; try reflexivity. Qed.

(** ** C10 *)

Lemma list_apps_unavailable_is_success_witness :
  let s := started no_apps in
  result (get_or_create_connection lib tv s) = inr 0 ∧
  result (list_apps lib tv s) =
    inr (mkAppsResponse [] (Some "App listing not supported on this device")) ∧
  result (launch_app lib tv "com.netflix.Netflix" s) =
    inl (HTTPException 400 "App launching not supported").
Proof.
  intros s.
  assert (Hconnected : result (get_or_create_connection lib tv s) = inr 0) by reflexivity.
  destruct (list_apps_unavailable_is_success lib tv "com.netflix.Netflix" s 0 Hconnected)
    as (Hlist & Hlaunch).
  split; [exact Hconnected|]. split; [apply Hlist | apply Hlaunch]; reflexivity.
Defined.

(** * Concrete runs for the further properties *)

Lemma acquire_success_stores_handle_witness :
  let o := get_or_create_connection lib tv (started quiet) in
  result o = inr 0 ∧ active_connections (final o) !! tv = Some 0.
Proof.
  intros o. assert (Hres : result o = inr 0) by reflexivity.
  destruct (acquire_success_stores_handle lib tv (started quiet) 0 Hres) as [_ Hentry].
  split; [exact Hres | exact Hentry].
Defined.

Lemma acquire_leaves_other_entries_witness :
  let s := two_connected dropped in
  let o := get_or_create_connection lib tv s in
  identifier bedroom ≠ tv ∧
  result o = inr 8 ∧
  active_connections (final o) !! identifier bedroom = active_connections s !! identifier bedroom.
Proof.
  intros s o. assert (Hother : identifier bedroom ≠ tv) by discriminate.
  destruct (acquire_leaves_other_entries lib tv (identifier bedroom) s Hother) as [Hkept _].
  split; [exact Hother|]. split; [reflexivity | exact Hkept].
Defined.

Lemma acquire_known_device_never_scans_witness :
  let o := get_or_create_connection lib tv (connected dropped) in
  discovered_devices (connected dropped) !! tv = Some living_room ∧
  discovered_devices (final o) = discovered_devices (connected dropped) ∧
  Forall (λ ev, is_scan ev = false) (calls o).
Proof.
  intros o.
  assert (Hknown : discovered_devices (connected dropped) !! tv = Some living_room)
    by reflexivity.
  split; [exact Hknown|].
  exact (acquire_known_device_never_scans lib tv (connected dropped) living_room Hknown).
Defined.

Lemma nobody_not_on_network : nobody ∉ identifier <$> [living_room; bedroom].
Proof.
  intros Hin. repeat (apply elem_of_cons in Hin as [Hin|Hin]; [discriminate Hin|]).
  by apply elem_of_nil in Hin.
Defined.

Lemma acquire_unknown_device_not_found_witness :
  let s := started quiet in
  let o := get_or_create_connection lib nobody s in
  active_connections s !! nobody = None ∧
  discovered_devices s !! nobody = None ∧
  scan lib (world s) = (inr [living_room; bedroom], quiet) ∧
  result o = inl (HTTPException 404 ("Apple TV " +:+ nobody +:+ " not found")) ∧
  calls o = [EvScan true].
Proof.
  intros s o.
  assert (Hpool : active_connections s !! nobody = None) by reflexivity.
  assert (Hknown : discovered_devices s !! nobody = None) by reflexivity.
  assert (Hscan : scan lib (world s) = (inr [living_room; bedroom], quiet)) by reflexivity.
  destruct (acquire_unknown_device_not_found lib nobody s _ _ Hpool Hknown Hscan
              nobody_not_on_network) as (Hres & Hcalls & _).
  split; [exact Hpool|]. split; [exact Hknown|]. split; [exact Hscan|].
  split; [exact Hres | exact Hcalls].
Defined.

Lemma acquire_scan_failure_propagates_witness :
  let s := orphaned cut_off in
  let o := get_or_create_connection lib (identifier kitchen) s in
  active_connections s !! identifier kitchen = Some 3 ∧
  EvScan false ∈ calls o ∧
  ∃ e,
    (scan lib (world (final (check_existing lib (identifier kitchen) s)))).1 = inl e ∧
    result o = inl e ∧
    active_connections (final o) = delete (identifier kitchen) (active_connections s).
Proof.
  intros s o.
  assert (Hfailed : EvScan false ∈ calls o) by (vm_compute; repeat constructor).
  destruct (acquire_scan_failure_propagates lib (identifier kitchen) s Hfailed)
    as (e & Hscan & Hres & _ & _ & Hpool & _).
  split; [reflexivity|]. split; [exact Hfailed|].
  exists e. split; [exact Hscan|]. split; [exact Hres | exact Hpool].
Defined.

Lemma acquire_failure_kinds_witness :
  let refused := get_or_create_connection lib tv (connected unreachable) in
  let unseen := get_or_create_connection lib nobody (started quiet) in
  let unscanned := get_or_create_connection lib nobody (started offline) in
  result refused = inl (HTTPException 500 "Failed to connect: connection refused") ∧
  result unseen = inl (HTTPException 404 ("Apple TV " +:+ nobody +:+ " not found")) ∧
  result unscanned = inl (Error "scan timed out") ∧
  ((scan lib (world (final (check_existing lib nobody (started offline))))).1 =
     inl (Error "scan timed out") ∧
   last (calls unscanned) = Some (EvScan false)).
Proof.
  intros refused unseen unscanned.
  assert (Hrefused : result refused =
            inl (HTTPException 500 "Failed to connect: connection refused"))
    by reflexivity.
  assert (Hunseen : result unseen =
            inl (HTTPException 404 ("Apple TV " +:+ nobody +:+ " not found")))
    by reflexivity.
  assert (Hunscanned : result unscanned = inl (Error "scan timed out")) by reflexivity.
  split; [exact Hrefused|]. split; [exact Hunseen|]. split; [exact Hunscanned|].
  pose proof (acquire_failure_kinds lib tv (connected unreachable) _ Hrefused) as _.
  pose proof (acquire_failure_kinds lib nobody (started quiet) _ Hunseen) as _.
  destruct (acquire_failure_kinds lib nobody (started offline) _ Hunscanned)
    as [Hnot|[[cause Hnot]|Hscan]]; [discriminate Hnot | discriminate Hnot | exact Hscan].
Defined.

Lemma rescan_keeps_live_connections_usable_witness :
  let s := outdated quiet in
  let o := get_or_create_connection lib (identifier kitchen) (final (rescan_devices lib s)) in
  active_connections s !! identifier kitchen = Some 3 ∧
  discovered_devices (final (rescan_devices lib s)) !! identifier kitchen = None ∧
  result o = inr 3 ∧
  calls o = [EvDeviceInfo 3 true].
Proof.
  intros s o.
  assert (Hpool : active_connections s !! identifier kitchen = Some 3) by reflexivity.
  assert (Hscan : scan lib (world s) = (inr [living_room; bedroom], quiet)) by reflexivity.
  destruct (rescan_keeps_live_connections_usable lib (identifier kitchen) s 3 _ _
              Hpool Hscan eq_refl) as (Hres & Hcalls & _).
  split; [exact Hpool|]. split; [reflexivity|]. split; [exact Hres | exact Hcalls].
Defined.

Lemma rescan_failure_keeps_registry_witness :
  let s := outdated offline in
  let o := rescan_devices lib s in
  scan lib (world s) = (inl (Error "scan timed out"), offline) ∧
  result o = inl (HTTPException 500 "Scan failed: scan timed out") ∧
  discovered_devices (final o) = discovered_devices s.
Proof.
  intros s o.
  assert (Hscan : scan lib (world s) = (inl (Error "scan timed out"), offline))
    by reflexivity.
  destruct (rescan_failure_keeps_registry lib s _ _ Hscan) as (Hres & _ & Hreg & _).
  split; [exact Hscan|]. split; [exact Hres | exact Hreg].
Defined.

Lemma network_identifiers_distinct : NoDup (identifier <$> [living_room; bedroom]).
Proof.
  repeat constructor; intros Hin;
    repeat (apply elem_of_cons in Hin as [Hin|Hin]; [discriminate Hin|]);
    by apply elem_of_nil in Hin.
Defined.

Lemma health_check_after_rescan_witness :
  let s := outdated quiet in
  scan lib (world s) = (inr [living_room; bedroom], quiet) ∧
  result (health_check lib (final (rescan_devices lib s))) = inr (mkHealth "healthy" 2 1).
Proof.
  intros s.
  assert (Hscan : scan lib (world s) = (inr [living_room; bedroom], quiet)) by reflexivity.
  split; [exact Hscan|].
  exact (health_check_after_rescan lib s _ _ Hscan network_identifiers_distinct).
Defined.

Lemma start_pairing_unknown_device_witness :
  discovered_devices (started quiet) !! nobody = None ∧
  start_pairing lib nobody "companion" (started quiet) =
    mkOutcome (inl (HTTPException 404 "Device not found")) (started quiet) [].
Proof.
  assert (Hunknown : discovered_devices (started quiet) !! nobody = None) by reflexivity.
  split; [exact Hunknown|].
  exact (start_pairing_unknown_device lib nobody "companion" (started quiet) Hunknown).
Defined.

Lemma start_pairing_failure_stores_nothing_witness :
  let o := start_pairing lib nobody "airplay" pairing_started in
  result o = inl (HTTPException 404 "Device not found") ∧
  pairing_sessions (final o) = pairing_sessions pairing_started.
Proof.
  intros o. assert (Hres : result o = inl (HTTPException 404 "Device not found"))
    by reflexivity.
  destruct (start_pairing_failure_stores_nothing lib nobody "airplay" pairing_started _ Hres)
    as [Hkept _].
  split; [exact Hres | exact Hkept].
Defined.

Lemma start_pairing_replaces_session_witness :
  let o := start_pairing lib tv "AirPlay" pairing_started in
  session_of lib tv pairing_started = Some 0 ∧
  is_ok (result o) = true ∧
  ∃ config pairing,
    calls o = [EvPair config AirPlay (Some pairing); EvBegin pairing true] ∧
    session_of lib tv (final o) = Some pairing.
Proof.
  intros o.
  assert (Hres : result o =
            inr (mkPairStart
                   "Pairing started with AirPlay protocol. Enter the PIN shown on your Apple TV."
                   "AirPlay" true)) by reflexivity.
  destruct (start_pairing_replaces_session lib tv "AirPlay" pairing_started _ Hres)
    as (config & pairing & _ & Hcalls & _ & Hsession & _).
  split; [reflexivity|]. split; [reflexivity|].
  exists config, pairing. split; [exact Hcalls | exact Hsession].
Defined.

Lemma finish_pairing_without_session_witness :
  let o := finish_pairing lib tv (mkPairingRequest "1234") (started quiet) in
  pairing_sessions (started quiet) = None ∧
  result o = inl (HTTPException 400 "No active pairing session") ∧
  calls o = [].
Proof.
  intros o.
  destruct (finish_pairing_without_session lib tv (mkPairingRequest "1234") (started quiet)
              (or_introl eq_refl)) as (Hres & Hcalls & _).
  split; [reflexivity|]. split; [exact Hres | exact Hcalls].
Defined.

Lemma finish_pairing_failure_keeps_sessions_witness :
  let o := finish_pairing lib tv (mkPairingRequest "0000") pairing_started in
  is_ok (result o) = false ∧
  pairing_sessions (final o) = pairing_sessions pairing_started.
Proof.
  intros o.
  assert (Hres : result o =
            inl (HTTPException 500 "Pairing failed: 400: Pairing not completed"))
    by reflexivity.
  destruct (finish_pairing_failure_keeps_sessions lib tv (mkPairingRequest "0000")
              pairing_started _ Hres) as [Hkept _].
  split; [reflexivity | exact Hkept].
Defined.

Lemma finish_pairing_success_removes_only_its_session_witness :
  let o := finish_pairing lib tv (mkPairingRequest "1234") pairing_started in
  is_ok (result o) = true ∧
  pairing_sessions (final o) = delete tv <$> pairing_sessions pairing_started ∧
  session_of lib tv (final o) = None.
Proof.
  intros o.
  assert (Hres : result o = inr (mkPairFinish "Pairing successful" (Some "1a2b:3c4d")))
    by reflexivity.
  destruct (finish_pairing_success_removes_only_its_session lib tv
              (mkPairingRequest "1234") pairing_started _ Hres)
    as (pairing & _ & _ & _ & _ & Hsessions & Hgone & _).
  split; [reflexivity|]. split; [exact Hsessions | exact Hgone].
Defined.

Lemma send_unsupported_command_witness :
  let s := mkState (P := lib_without_volume)
             (discovered_devices (started quiet)) ∅ None quiet in
  let sent := send_remote_command lib_without_volume tv "volume_up" s in
  result (get_or_create_connection lib_without_volume tv s) = inr 0 ∧
  assoc "volume_up" command_names = Some "volume_up" ∧
  result sent =
    inl (HTTPException 400 "Command 'volume_up' not supported by this Apple TV") ∧
  calls sent = calls (get_or_create_connection lib_without_volume tv s).
Proof.
  intros s sent.
  assert (Hconnected : result (get_or_create_connection lib_without_volume tv s) = inr 0)
    by reflexivity.
  assert (Hknown : assoc "volume_up" command_names = Some "volume_up") by reflexivity.
  destruct (send_unsupported_command lib_without_volume tv "volume_up" s 0 "volume_up"
              Hconnected Hknown eq_refl) as (Hres & Hcalls & _).
  split; [exact Hconnected|]. split; [exact Hknown|]. split; [exact Hres | exact Hcalls].
Defined.

Lemma send_supported_command_invoked_once_witness :
  let s := started quiet in
  let sent := send_remote_command lib tv "play_pause" s in
  result (get_or_create_connection lib tv s) = inr 0 ∧
  assoc "play_pause" command_names = Some "play_pause" ∧
  calls sent =
    (calls (get_or_create_connection lib tv s) ++ [EvRemote 0 "play_pause" true])%list ∧
  result sent = inr (mkCommandResponse true "play_pause").
Proof.
  intros s sent.
  assert (Hconnected : result (get_or_create_connection lib tv s) = inr 0) by reflexivity.
  assert (Hknown : assoc "play_pause" command_names = Some "play_pause") by reflexivity.
  destruct (send_supported_command_invoked_once lib tv "play_pause" s 0 "play_pause"
              Hconnected Hknown eq_refl) as (_ & Hcalls & Hres & _).
  split; [exact Hconnected|]. split; [exact Hknown|]. split; [exact Hcalls | exact Hres].
Defined.

Lemma launch_app_outcomes_witness :
  let s := started quiet in
  let o := launch_app lib tv "com.netflix.Netflix" s in
  result (get_or_create_connection lib tv s) = inr 0 ∧
  calls o =
    (calls (get_or_create_connection lib tv s) ++
     [EvInState 0 LaunchApp true; EvLaunchApp 0 "com.netflix.Netflix" true])%list ∧
  result o = inr (mkLaunchResponse true "com.netflix.Netflix").
Proof.
  intros s o.
  assert (Hconnected : result (get_or_create_connection lib tv s) = inr 0) by reflexivity.
  split; [exact Hconnected|].
  exact (launch_app_outcomes lib tv "com.netflix.Netflix" s 0 Hconnected).
Defined.

Lemma list_apps_outcomes_witness :
  let s := started quiet in
  let o := list_apps lib tv s in
  result (get_or_create_connection lib tv s) = inr 0 ∧
  calls o =
    (calls (get_or_create_connection lib tv s) ++
     [EvInState 0 AppList true; EvAppList 0 true])%list ∧
  result o = inr (mkAppsResponse [] None).
Proof.
  intros s o.
  assert (Hconnected : result (get_or_create_connection lib tv s) = inr 0) by reflexivity.
  split; [exact Hconnected|].
  exact (list_apps_outcomes lib tv s 0 Hconnected).
Defined.

Lemma now_playing_queries_witness :
  let s := started playing_no_app in
  let o := get_now_playing lib tv s in
  result (get_or_create_connection lib tv s) = inr 0 ∧
  calls o =
    (calls (get_or_create_connection lib tv s) ++
     [EvPlaying 0 true; EvInState 0 App true; EvApp 0 false])%list.
Proof.
  intros s o.
  assert (Hconnected : result (get_or_create_connection lib tv s) = inr 0) by reflexivity.
  destruct (now_playing_queries lib tv s 0 Hconnected) as [Hcalls _].
  split; [exact Hconnected | exact Hcalls].
Defined.

(** A handle is pooled for the kitchen, which the cache no longer holds:
    [connect_device] succeeds and reports the name "Unknown";
    [get_device] answers 404 for it. *)
Example connect_device_uncached :
  let s := final (rescan_devices lib (outdated quiet)) in
  result (connect_device lib (identifier kitchen) s) =
    inr (mkConnectResponse true (identifier kitchen) "Unknown") ∧
  result (get_device lib details (identifier kitchen) s) =
    inl (HTTPException 404 "Device not found").
Proof. split; reflexivity. Qed.

(** A stale handle is pooled for the living room: [get_device] still
    reports the device as connected and leaves the handle in the pool. *)
Example get_device_with_stale_handle :
  let o := get_device lib details tv (connected dropped) in
  result o = inr (mkDeviceInfo tv "Living Room" "10.0.0.21" None None true) ∧
  active_connections (final o) !! tv = Some 7.
Proof. split; reflexivity. Qed.
